(** * Lab-report toolkit: rounding of uncertainties, table post-processing,
      Student factors, plotting and the directory context manager

    A shallow embedding of

    - [lab_tool/uncertainties_mod/idea_2/monkeypatch.py]
      ([_PDG_precision], the replacement rounding rule of the
      uncertainties package),
    - [lab_tool/write_table.py] and [labtool/src/functions.py]
      ([write_table] and its [uarray] branch, [cd]),
    - [labtool/src/classes.py] ([Student], [CDContxt], [_plot] and
      [AbstractFit.plot]).

    The rounding rule computes in Python floats and integers, and is
    modelled so: floats are binary64 numbers with their rounded
    multiplication, integers are unbounded.  The Student factors are only
    looked up and compared, and are given as the rationals their literals
    denote.  Text is a list of 8-bit characters; on that range the
    regular-expression class [\d] is exactly ['0'..'9']. *)

From Stdlib Require Import ZArith QArith Qround Qpower.
From Stdlib Require Import List Ascii String Bool Arith Lia.
From Stdlib Require Import DecimalString.
From Stdlib Require Import PrimFloat SpecFloat FloatOps.
Import ListNotations.

Close Scope Q_scope.

(* Decimal float literals stand for the nearest binary64 number, as in
   Python. *)
Set Warnings "-inexact-float".

(** ** Exceptions and fallible computations *)

Inductive exn : Type :=
| ValueError (msg : string)
| IndexError (msg : string)
| AttributeError (msg : string)
| OverflowError (msg : string)
| FileNotFoundError (path : string)
| NotADirectoryError (path : string)
| PermissionError (path : string).

Inductive result (A : Type) : Type :=
| Ok (a : A)
| Raise (e : exn).

Arguments Ok {A} a.
Arguments Raise {A} e.

Definition bind {A B : Type} (c : result A) (k : A -> result B) : result B :=
  match c with
  | Ok a => k a
  | Raise e => Raise e
  end.

Notation "x <- c ;; k" := (bind c (fun x => k))
  (at level 61, c at next level, right associativity).

(** ** Python numbers, as far as the rounding rule uses them *)

Module Py.

(** A number is an [int] (unbounded) or a [float] (binary64). *)
Inductive number : Type :=
| Int (z : Z)
| Float (f : float).

(** The rational a finite float stands for. *)
Definition exact (f : float) : option Q :=
  match Prim2SF f with
  | S754_zero _ => Some 0%Q
  | S754_finite s m e =>
      Some (inject_Z (if s then Z.neg m else Z.pos m) * 2 ^ e)%Q
  | S754_infinity _ | S754_nan => None
  end.

(** The float nearest to a rational, ties to even.  The quotient is
    taken to 64 bits or more with a sticky last bit, and rounded once. *)
Definition nearest (q : Q) : float :=
  let n := Z.abs (Qnum q) in
  let d := Z.pos (Qden q) in
  let s := (64 + Z.log2 d - Z.log2 n)%Z in
  let num := if (0 <=? s)%Z then (n * 2 ^ s)%Z else n in
  let den := if (0 <=? s)%Z then d else (d * 2 ^ (- s))%Z in
  let m := (2 * (num / den) + (if (num mod den =? 0)%Z then 0 else 1))%Z in
  SF2Prim (binary_normalize prec emax
             (if (Qnum q <? 0)%Z then (- m)%Z else m) (- s - 1) false).

(** [float(z)], the conversion an [int] undergoes when it meets a
    [float]: the nearest float, or [OverflowError]. *)
Definition float_of_int (z : Z) : result float :=
  let f := SF2Prim (binary_normalize prec emax z 0 false) in
  if is_infinity f
  then Raise (OverflowError "int too large to convert to float")
  else Ok f.

Definition to_float (x : number) : result float :=
  match x with
  | Int z => float_of_int z
  | Float f => Ok f
  end.

(** [10 ** k] for an [int] [k]: an [int] when [k >= 0]; otherwise the
    float [pow(10.0, k)] of the C library, which is taken to return the
    float nearest to the power, as it does for the powers used below. *)
Definition pow10 (k : Z) : number :=
  if (0 <=? k)%Z then Int (10 ^ k)
  else Float (nearest (1 # Z.to_pos (10 ^ (- k)))).

(** [a * b]: exact on two [int]s, the rounded product of binary64
    otherwise. *)
Definition mul (a b : number) : result number :=
  match a, b with
  | Int x, Int y => Ok (Int (x * y))
  | _, _ => x <- to_float a ;; y <- to_float b ;; Ok (Float (x * y))
  end.

(** [a * b] for a float [a]. *)
Definition mul_float (a : float) (b : number) : result float :=
  y <- to_float b ;; Ok (a * y)%float.

(** [math.ceil]: an [int]. *)
Definition ceil (x : float) : result Z :=
  match exact x with
  | Some q => Ok (Qceiling q)
  | None =>
      if is_nan x
      then Raise (ValueError "cannot convert float NaN to integer")
      else Raise (OverflowError "cannot convert float infinity to integer")
  end.

End Py.

(** ** monkeypatch.py: the significant-digit rule *)

Module MonkeyPatch.

Section Resolver.

(** [uc.first_digit] of the uncertainties package: not part of this
    repository, so the rule is stated over any such primitive. *)
Variable first_digit : float -> result Z.

Definition _PDG_precision (std_dev : float) : result (Z * Py.number) :=
  (* exponent = uc.first_digit(std_dev) *)
  exponent <- first_digit std_dev ;;
  (* normalized_float = std_dev * 10**-exponent *)
  normalized_float <- Py.mul_float std_dev (Py.pow10 (- exponent)) ;;
  (* return (signigicant digits, uncertainty) *)
  if (normalized_float <=? 1.9)%float
  then
    (* return 2, math.ceil(normalized_float * 10) * 10**(exponent-1) *)
    scaled <- Py.mul_float normalized_float (Py.Int 10) ;;
    c <- Py.ceil scaled ;;
    rounded <- Py.mul (Py.Int c) (Py.pow10 (exponent - 1)) ;;
    Ok (2%Z, rounded)
  else
    (* return 1, math.ceil(normalized_float) * 10**exponent *)
    c <- Py.ceil normalized_float ;;
    rounded <- Py.mul (Py.Int c) (Py.pow10 exponent) ;;
    Ok (1%Z, rounded).

End Resolver.

End MonkeyPatch.

(** ** The first-digit primitive of the uncertainties package *)

Module uc.

Local Open Scope Q_scope.

(** Number of decimal digits of a positive integer, minus one. *)
Fixpoint ilog10_fuel (fuel : nat) (n : Z) : Z :=
  match fuel with
  | O => 0
  | S fuel' => if (n <? 10)%Z then 0 else (1 + ilog10_fuel fuel' (n / 10))%Z
  end.

Definition ilog10 (n : Z) : Z := ilog10_fuel (S (Z.to_nat (Z.log2 n))) n.

(** The integer [e] with [10 ^ e <= x < 10 ^ (e + 1)], for [x > 0]. *)
Definition floor_log10 (x : Q) : Z :=
  let e0 := (ilog10 (Qnum x) - ilog10 (Zpos (Qden x)))%Z in
  if Qle_bool (10 ^ e0) x then e0 else (e0 - 1)%Z.

(** Modelled from the spec: [first_digit] lives in the upstream
    uncertainties package, whose source is not in this repository.  The
    spec gives it as the position of the first significant digit, the
    power of ten [e] with [1 <= std_dev / 10 ^ e < 10], and as failing
    with a domain error on zero or negative input.  The power is that of
    the number the float stands for; an infinity or a NaN has none, which
    is taken as a domain error too. *)
Definition first_digit (value : float) : result Z :=
  if (value <=? 0)%float
  then Raise (ValueError "math domain error")
  else match Py.exact value with
       | Some q => Ok (floor_log10 q)
       | None => Raise (ValueError "math domain error")
       end.

End uc.

Definition PDG_precision : float -> result (Z * Py.number) :=
  MonkeyPatch._PDG_precision uc.first_digit.

(** The rule run with a primitive that returns [exponent]: what the
    rule does on [std_dev] with any primitive that returns [exponent] on
    it. *)
Definition PDG_precision_at (exponent : Z) (std_dev : float) :
    result (Z * Py.number) :=
  MonkeyPatch._PDG_precision (fun _ => Ok exponent) std_dev.

(** The rule in the words of the spec, in exact arithmetic, to compare
    the code with: for the exponent that puts
    [normalized = std_dev / 10 ^ exponent] in [1, 10), two digits and
    [ceil (normalized * 10) * 10 ^ (exponent - 1)] when
    [normalized <= 1.9], one digit and [ceil normalized * 10 ^ exponent]
    otherwise. *)
Definition rule_as_specified (std_dev : Q) : Z * Q :=
  let exponent := uc.floor_log10 std_dev in
  let normalized := (std_dev / 10 ^ exponent)%Q in
  if Qle_bool normalized 1.9
  then (2%Z, (inject_Z (Qceiling (normalized * 10)) * 10 ^ (exponent - 1))%Q)
  else (1%Z, (inject_Z (Qceiling normalized) * 10 ^ exponent)%Q).

(** ** Python's [re] module, as far as [write_table] uses it *)

Definition text : Type := list ascii.

Definition txt (s : string) : text := list_ascii_of_string s.

(** The double-quote character. *)
Definition dquote : ascii := "034"%char.

Module re.

(** A pattern is a sequence of single-character atoms, each with a
    greedy quantifier, with the brackets of capture groups in between. *)
Inductive atom : Type :=
| Lit (c : ascii)       (* a literal character, escaped or not *)
| Digit.                (* the class \d *)

Inductive quant : Type :=
| One                   (* exactly once *)
| Opt                   (* ? : once or not at all *)
| Star                  (* zero or more times *)
| Plus.                 (* + : one or more times *)

Inductive item : Type :=
| Atom (a : atom) (q : quant)
| GOpen                 (* a group opens *)
| GClose.               (* a group closes *)

Definition pattern : Type := list item.

Definition is_digit (c : ascii) : bool :=
  (48 <=? nat_of_ascii c)%nat && (nat_of_ascii c <=? 57)%nat.

Definition accepts (a : atom) (c : ascii) : bool :=
  match a with
  | Lit c' => Ascii.eqb c' c
  | Digit => is_digit c
  end.

(** What a successful match consumed: the characters, with the group
    brackets where the pattern has them. *)
Inductive token : Type :=
| Ch (c : ascii)
| LB
| RB.

Definition matched : Type := list token.

Definition consume (t : token) (r : option matched) : option matched :=
  option_map (cons t) r.

(** First alternative if it succeeds, else the second: backtracking. *)
Definition orelse (r1 r2 : option matched) : option matched :=
  match r1 with
  | Some _ => r1
  | None => r2
  end.

(** [a*] followed by the continuation [k], longest repetition first. *)
Fixpoint greedy (a : atom) (k : text -> option matched) (s : text)
  : option matched :=
  match s with
  | c :: s' =>
      if accepts a c
      then orelse (consume (Ch c) (greedy a k s')) (k s)
      else k s
  | [] => k []
  end.

(** Match the pattern at the start of the text. *)
Fixpoint match_here (p : pattern) (s : text) {struct p} : option matched :=
  match p with
  | [] => Some []
  | GOpen :: p' => consume LB (match_here p' s)
  | GClose :: p' => consume RB (match_here p' s)
  | Atom a One :: p' =>
      match s with
      | c :: s' => if accepts a c then consume (Ch c) (match_here p' s') else None
      | [] => None
      end
  | Atom a Opt :: p' =>
      match s with
      | c :: s' =>
          if accepts a c
          then orelse (consume (Ch c) (match_here p' s')) (match_here p' s)
          else match_here p' s
      | [] => match_here p' []
      end
  | Atom a Star :: p' => greedy a (match_here p') s
  | Atom a Plus :: p' =>
      match s with
      | c :: s' => if accepts a c then consume (Ch c) (greedy a (match_here p') s') else None
      | [] => None
      end
  end.

(** The matched characters, brackets dropped. *)
Fixpoint erase (m : matched) : text :=
  match m with
  | [] => []
  | Ch c :: m' => c :: erase m'
  | _ :: m' => erase m'
  end.

(** The captured groups in pattern order ([cur] is the group being
    read, if one is open).  Groups are not nested in the patterns of
    this repository. *)
Fixpoint groups_from (m : matched) (cur : option text) : list text :=
  match m with
  | [] => []
  | Ch c :: m' => groups_from m' (option_map (fun g => g ++ [c]) cur)
  | LB :: m' => groups_from m' (Some [])
  | RB :: m' =>
      match cur with
      | Some g => g :: groups_from m' None
      | None => groups_from m' None
      end
  end.

Definition groups (m : matched) : list text := groups_from m None.

(** A replacement template: literal text and back-references [\n]. *)
Inductive piece : Type :=
| Txt (t : text)
| Ref (n : nat).

Definition template : Type := list piece.

Definition expand (repl : template) (gs : list text) : text :=
  flat_map (fun p => match p with
                     | Txt t => t
                     | Ref n => nth (n - 1) gs []
                     end) repl.

(** [re.sub]: scan from the left; where the pattern matches, emit the
    expanded template and resume after the match ([skip] counts the
    characters of the current match still to be passed over); elsewhere
    copy the character.  The patterns below never match the empty
    string (see [plus_minus_match_nonempty] and [paren_match_nonempty]),
    so the rule of [re.sub] for empty matches is not needed. *)
Fixpoint sub_from (p : pattern) (repl : template) (s : text) (skip : nat)
  : text :=
  match s with
  | [] => []
  | c :: s' =>
      match skip with
      | S k => sub_from p repl s' k
      | O =>
          match match_here p s with
          | Some m =>
              match List.length (erase m) with
              | S n => expand repl (groups m) ++ sub_from p repl s' n
              | O => c :: sub_from p repl s' 0
              end
          | None => c :: sub_from p repl s' 0
          end
      end
  end.

Definition sub (p : pattern) (repl : template) (s : text) : text :=
  sub_from p repl s 0.

(** A run of literal characters. *)
Definition lits_of (t : text) : pattern :=
  map (fun c => Atom (Lit c) One) t.

Definition lits (s : string) : pattern := lits_of (txt s).

(** Do all characters of the template's literal text satisfy [P]? *)
Definition template_chars (P : ascii -> bool) (repl : template) : bool :=
  forallb (fun pc => match pc with
                     | Txt t => forallb P t
                     | Ref _ => true
                     end) repl.

(** Does the pattern match at the start of the text? *)
Definition matches (p : pattern) (s : text) : bool :=
  match match_here p s with
  | Some _ => true
  | None => false
  end.

(** Does the pattern match at some position of the text? *)
Fixpoint occurs (p : pattern) (s : text) : bool :=
  match match_here p s with
  | Some _ => true
  | None =>
      match s with
      | [] => false
      | _ :: s' => occurs p s'
      end
  end.

End re.

(** [str.replace(old, new)] for a one-character [old]. *)
Definition str_replace (old : ascii) (new : text) (s : text) : text :=
  flat_map (fun c => if Ascii.eqb c old then new else [c]) s.

(** ** write_table: the [uarray] branch *)

(** The pattern of the first [re.sub], the same in both files: a digit,
    the three characters [+/-], a digit; both digits captured. *)
Definition plus_minus_pattern : re.pattern :=
  [re.GOpen; re.Atom re.Digit re.One; re.GClose]
    ++ re.lits "+/-"
    ++ [re.GOpen; re.Atom re.Digit re.One; re.GClose].

(** A captured number: one or more digits, an optional dot, any number
    of digits. *)
Definition number_group : re.pattern :=
  [re.GOpen; re.Atom re.Digit re.Plus; re.Atom (re.Lit ".") re.Opt;
   re.Atom re.Digit re.Star; re.GClose].

(** lab_tool/write_table.py, lines 59 to 68 *)
Module WriteTable.

(* delete string quotes: replace the double quote by nothing *)
Definition delete_quotes (df_str : text) : text :=
  str_replace dquote [] df_str.

(* re.sub(r"(\d)\+/-(\d)", r"\1 \\pm \2", df_str) *)
Definition replace_plus_minus (df_str : text) : text :=
  re.sub plus_minus_pattern
         [re.Ref 1; re.Txt (txt " \pm "); re.Ref 2] df_str.

(* second re.sub: an opening parenthesis, a captured number, the text
   [ \pm ], a captured number, the text [)e]; the template is
   r"\1 \\pm \2 e" *)
Definition delete_parentheses (df_str : text) : text :=
  re.sub (re.lits "(" ++ number_group ++ re.lits " \pm "
            ++ number_group ++ re.lits ")e")
         [re.Ref 1; re.Txt (txt " \pm "); re.Ref 2; re.Txt (txt " e")]
         df_str.

Definition uarray_branch (df_str : text) : text :=
  delete_parentheses (replace_plus_minus (delete_quotes df_str)).

(** The text [write_table] puts between [\begin] and [\end]; [df_str]
    is what [to_csv] returned. *)
Definition table_body (uarray : bool) (df_str : text) : text :=
  if uarray then uarray_branch df_str else df_str.

End WriteTable.

(** labtool/src/functions.py, lines 110 to 119 *)
Module Functions.

(* delete string quotes: replace the double quote by nothing *)
Definition delete_quotes (df_str : text) : text :=
  str_replace dquote [] df_str.

(* re.sub(r"(\d)\+/-(\d)", r"\1 +- \2", df_str) *)
Definition replace_plus_minus (df_str : text) : text :=
  re.sub plus_minus_pattern
         [re.Ref 1; re.Txt (txt " +- "); re.Ref 2] df_str.

(* second re.sub: an opening parenthesis, a captured number, the text
   [ +- ], a captured number, the text [)e]; the template is
   r"\1 +- \2 e" *)
Definition delete_parentheses (df_str : text) : text :=
  re.sub (re.lits "(" ++ number_group ++ re.lits " +- "
            ++ number_group ++ re.lits ")e")
         [re.Ref 1; re.Txt (txt " +- "); re.Ref 2; re.Txt (txt " e")]
         df_str.

Definition uarray_branch (df_str : text) : text :=
  delete_parentheses (replace_plus_minus (delete_quotes df_str)).

Definition table_body (uarray : bool) (df_str : text) : text :=
  if uarray then uarray_branch df_str else df_str.

End Functions.

(** ** The two files as instances of one formatter

    [sym] is the plus-minus symbol: [\pm] in write_table.py, [+-] in
    functions.py. *)

Module Formatter.

Definition spaced (sym : text) : text := " "%char :: sym ++ [" "%char].

Definition plus_minus_template (sym : text) : re.template :=
  [re.Ref 1; re.Txt (spaced sym); re.Ref 2].

Definition paren_pattern (sym : text) : re.pattern :=
  re.lits "(" ++ number_group ++ re.lits_of (spaced sym)
    ++ number_group ++ re.lits ")e".

Definition paren_template (sym : text) : re.template :=
  [re.Ref 1; re.Txt (spaced sym); re.Ref 2; re.Txt (txt " e")].

Definition delete_quotes (df_str : text) : text :=
  str_replace dquote [] df_str.

Definition replace_plus_minus (sym : text) (df_str : text) : text :=
  re.sub plus_minus_pattern (plus_minus_template sym) df_str.

Definition delete_parentheses (sym : text) (df_str : text) : text :=
  re.sub (paren_pattern sym) (paren_template sym) df_str.

Definition uarray_branch (sym : text) (df_str : text) : text :=
  delete_parentheses sym (replace_plus_minus sym (delete_quotes df_str)).

Definition tex : text := txt "\pm".
Definition plain : text := txt "+-".

(** The text the second pattern matches, what the match records, and
    the text put in its place, for the numbers [A] and [B]. *)
Definition paren_text (sym A B : text) : text :=
  "("%char :: A ++ spaced sym ++ B ++ txt ")e".

Definition paren_matched (sym A B : text) : re.matched :=
  re.Ch "(" :: re.LB :: map re.Ch A ++ re.RB :: map re.Ch (spaced sym)
    ++ re.LB :: map re.Ch B ++ re.RB :: [re.Ch ")"; re.Ch "e"].

Definition pair_text (sym A B : text) : text :=
  A ++ spaced sym ++ B ++ txt " e".

(** What a symbol must not contain for the two patterns to stay apart:
    digits, dots, spaces, parentheses, double quotes and slashes. *)
Definition sym_char_ok (c : ascii) : bool :=
  negb (re.is_digit c)
  && negb (Ascii.eqb c ".") && negb (Ascii.eqb c " ")
  && negb (Ascii.eqb c "(") && negb (Ascii.eqb c ")")
  && negb (Ascii.eqb c dquote) && negb (Ascii.eqb c "/").

(** A character of an exponent, or of any text that takes no part in
    the substitutions: no opening parenthesis, slash or double quote. *)
Definition plain_char (c : ascii) : bool :=
  negb (Ascii.eqb c "(") && negb (Ascii.eqb c "/") && negb (Ascii.eqb c dquote).

Definition sym_ok (sym : text) : bool := forallb sym_char_ok sym.

(** A number as [number_group] reads it: digits, then nothing or a dot
    and digits. *)
Fixpoint digits_prefix (t : text) : text :=
  match t with
  | c :: t' => if re.is_digit c then c :: digits_prefix t' else []
  | [] => []
  end.

Fixpoint after_digits (t : text) : text :=
  match t with
  | c :: t' => if re.is_digit c then after_digits t' else t
  | [] => []
  end.

Definition is_number (t : text) : bool :=
  match digits_prefix t with
  | [] => false
  | _ :: _ =>
      match after_digits t with
      | [] => true
      | c :: r => Ascii.eqb "." c && forallb re.is_digit r
      end
  end.

(** Weaker: a digit, then digits and dots. *)
Definition numeric (t : text) : bool :=
  match t with
  | [] => false
  | c :: t' =>
      re.is_digit c && forallb (fun x => re.is_digit x || Ascii.eqb "." x) t'
  end.

(** Does the text end with a digit followed by [+/-]? *)
Fixpoint ends_with_plus_minus (s : text) : bool :=
  match s with
  | [] => false
  | c :: s' =>
      match s' with
      | [p; sl; mi] =>
          re.is_digit c && Ascii.eqb "+" p && Ascii.eqb "/" sl && Ascii.eqb "-" mi
      | _ => ends_with_plus_minus s'
      end
  end.

(** *** The first substitution as a list of chunks

    The text is cut at every replaced [+/-]; joining the chunks with the
    spaced symbol gives the output of the substitution. *)

Definition plus_minus_at (s : text) : bool :=
  match re.match_here plus_minus_pattern s with
  | Some _ => true
  | None => false
  end.

Fixpoint chunks_from (s : text) (skip : nat) (cur : text) : list text :=
  match s with
  | [] => [cur]
  | c :: s' =>
      match skip with
      | O =>
          if plus_minus_at s
          then (cur ++ [c]) :: chunks_from s' 4 []
          else chunks_from s' 0 (cur ++ [c])
      | 1 => chunks_from s' 0 (cur ++ [c])
      | S k => chunks_from s' k cur
      end
  end.

Definition chunks (s : text) : list text := chunks_from s 0 [].

Fixpoint join (sep : text) (l : list text) : text :=
  match l with
  | [] => []
  | [x] => x
  | x :: l' => x ++ sep ++ join sep l'
  end.

(** *** The second pattern as an automaton

    One state per position of the pattern; [g] tells the second number
    from the first. *)

Inductive state : Type :=
| SOpen                 (* before the opening parenthesis *)
| SFirst (g : bool)     (* before the first digit of a number *)
| SInt (g : bool)       (* in the digits before the dot *)
| SFrac (g : bool)      (* after the dot *)
| SSym (rem : text)     (* in the spaced symbol, [rem] and a space to go *)
| SE.                   (* after the closing parenthesis *)

Inductive verdict : Type :=
| Dead
| Accept
| Go (q : state).

Definition close_number (sym : text) (g : bool) (c : ascii) : verdict :=
  if g
  then if Ascii.eqb ")" c then Go SE else Dead
  else if Ascii.eqb " " c then Go (SSym sym) else Dead.

Definition step (sym : text) (q : state) (c : ascii) : verdict :=
  match q with
  | SOpen => if Ascii.eqb "(" c then Go (SFirst false) else Dead
  | SFirst g => if re.is_digit c then Go (SInt g) else Dead
  | SInt g =>
      if re.is_digit c then Go (SInt g)
      else if Ascii.eqb "." c then Go (SFrac g)
      else close_number sym g c
  | SFrac g => if re.is_digit c then Go (SFrac g) else close_number sym g c
  | SSym [] => if Ascii.eqb " " c then Go (SFirst true) else Dead
  | SSym (r :: rem) => if Ascii.eqb r c then Go (SSym rem) else Dead
  | SE => if Ascii.eqb "e" c then Accept else Dead
  end.

Fixpoint run (sym : text) (q : state) (s : text) : bool :=
  match s with
  | [] => false
  | c :: s' =>
      match step sym q c with
      | Dead => false
      | Accept => true
      | Go q' => run sym q' s'
      end
  end.

(** The state after a prefix has been read. *)
Fixpoint feed (sym : text) (q : state) (s : text) : verdict :=
  match s with
  | [] => Go q
  | c :: s' =>
      match step sym q c with
      | Go q' => feed sym q' s'
      | v => v
      end
  end.

(** Reading a number keeps the automaton in that number, or kills it. *)
Definition reads_number (v : verdict) (g : bool) : Prop :=
  v = Dead \/ v = Go (SInt g) \/ v = Go (SFrac g).

(** States the automaton can be in: what is left of the symbol has no
    character of a number or a bracket. *)
Definition wf_state (q : state) : bool :=
  match q with
  | SSym rem => sym_ok rem
  | _ => true
  end.

(** The part of the pattern still to be matched in each state. *)
Definition after_number (sym : text) (g : bool) : re.pattern :=
  if g then re.lits ")e"
  else re.Atom (re.Lit " ") re.One
         :: re.lits_of sym ++ re.Atom (re.Lit " ") re.One
         :: number_group ++ re.lits ")e".

Definition residual (sym : text) (q : state) : re.pattern :=
  match q with
  | SOpen => paren_pattern sym
  | SFirst g =>
      [re.GOpen; re.Atom re.Digit re.Plus; re.Atom (re.Lit ".") re.Opt;
       re.Atom re.Digit re.Star; re.GClose] ++ after_number sym g
  | SInt g =>
      [re.Atom re.Digit re.Star; re.Atom (re.Lit ".") re.Opt;
       re.Atom re.Digit re.Star; re.GClose] ++ after_number sym g
  | SFrac g =>
      [re.Atom re.Digit re.Star; re.GClose] ++ after_number sym g
  | SSym rem =>
      re.lits_of rem ++ re.Atom (re.Lit " ") re.One
        :: number_group ++ re.lits ")e"
  | SE => re.lits "e"
  end.

End Formatter.

(** The two files side by side. *)
Inductive variant : Type :=
| Tex      (* lab_tool/write_table.py *)
| Plain.   (* labtool/src/functions.py *)

Definition symbol (v : variant) : text :=
  match v with
  | Tex => Formatter.tex
  | Plain => Formatter.plain
  end.

Definition uarray_branch (v : variant) : text -> text :=
  match v with
  | Tex => WriteTable.uarray_branch
  | Plain => Functions.uarray_branch
  end.

Definition delete_parentheses (v : variant) : text -> text :=
  match v with
  | Tex => WriteTable.delete_parentheses
  | Plain => Functions.delete_parentheses
  end.

(** ** The shapes the [uarray] branch looks for, in plain text

    What the spec calls a digit-[+/-]-digit occurrence and a
    parenthesised pair before an exponent, said without regular
    expressions, and the text without its double quotes. *)

Definition digit_plus_minus_digit_in (s : text) : Prop :=
  exists (pre : text) (d1 d2 : ascii) (post : text),
    re.is_digit d1 = true /\ re.is_digit d2 = true /\
    s = pre ++ d1 :: txt "+/-" ++ d2 :: post.

Definition parenthesised_pair_in (sym : text) (s : text) : Prop :=
  exists (pre A B post : text),
    Formatter.is_number A = true /\ Formatter.is_number B = true /\
    s = pre ++ Formatter.paren_text sym A B ++ post.

Definition without_quotes (s : text) : text :=
  filter (fun c => negb (Ascii.eqb c dquote)) s.

(** ** classes.py: [Student.__init__] *)

Module Student.

Local Open Scope Q_scope.

(** The class attribute [t_df]: three columns over the index 2..50. *)
Definition t_df_1 : list Q :=
  [1.84; 1.32; 1.2; 1.15; 1.11; 1.09; 1.08; 1.07; 1.06; 1.051; 1.045; 1.04; 1.036;
   1.033; 1.032; 1.031; 1.03; 1.03; 1.03; 1.03; 1.029; 1.028; 1.027; 1.026; 1.025;
   1.024; 1.022; 1.021; 1.02; 1.019; 1.018; 1.017; 1.016; 1.016; 1.015; 1.014; 1.014;
   1.013; 1.013; 1.012; 1.012; 1.012; 1.011; 1.011; 1.011; 1.011; 1.01; 1.01; 1.01].

Definition t_df_2 : list Q :=
  [13.97; 4.53; 3.31; 2.87; 2.65; 2.53; 2.43; 2.364; 2.32; 2.285; 2.255; 2.23; 2.209;
   2.191; 2.177; 2.165; 2.155; 2.147; 2.14; 2.133; 2.127; 2.121; 2.116; 2.111; 2.106;
   2.102; 2.097; 2.094; 2.09; 2.087; 2.083; 2.08; 2.078; 2.075; 2.072; 2.07; 2.068;
   2.066; 2.064; 2.062; 2.06; 2.059; 2.057; 2.056; 2.055; 2.053; 2.052; 2.051; 2.05].

Definition t_df_3 : list Q :=
  [235.8; 19.21; 9.22; 6.62; 5.51; 5.02; 4.53; 4.31; 4.09; 4.026; 3.962; 3.898; 3.834;
   3.77; 3.706; 3.642; 3.578; 3.514; 3.45; 3.433; 3.416; 3.399; 3.382; 3.365; 3.348;
   3.331; 3.314; 3.297; 3.28; 3.274; 3.268; 3.262; 3.256; 3.25; 3.244; 3.238; 3.232;
   3.226; 3.22; 3.214; 3.208; 3.202; 3.196; 3.19; 3.184; 3.178; 3.172; 3.166; 3.16].

(** A data frame: labelled columns over a list of row labels. *)
Record DataFrame : Type := {
  columns : list (string * list Q);
  index : list nat
}.

Definition t_df : DataFrame :=
  {| columns := [("1"%string, t_df_1); ("2"%string, t_df_2); ("3"%string, t_df_3)];
     index := seq 2 49 (* list(range(2, 51)) *) |}.

(** Position of a row label in the index. *)
Fixpoint position (label : nat) (idx : list nat) : option nat :=
  match idx with
  | [] => None
  | l :: idx' =>
      if Nat.eqb l label then Some O else option_map S (position label idx')
  end.

Fixpoint column (label : string) (cols : list (string * list Q))
  : option (list Q) :=
  match cols with
  | [] => None
  | (l, v) :: cols' => if String.eqb l label then Some v else column label cols'
  end.

(** [df.loc[row, col]]; [None] stands for the [KeyError] of pandas. *)
Definition loc (df : DataFrame) (row : nat) (col : string) : option Q :=
  match position row (index df), column col (columns df) with
  | Some i, Some v => nth_error v i
  | _, _ => None
  end.

(** [str] of an integer. *)
Definition str (z : Z) : string := NilEmpty.string_of_int (Z.to_int z).

(** The checks at the head of [__init__]; the result is the attribute
    [t].  What follows in the source (the mean, its standard error and
    the [ufloat]) is numerics of numpy, scipy and uncertainties on a
    series that has passed these checks. *)
Definition __init__ (series : list Q) (sigma : Z) : result Q :=
  (* test if sigma is reasonable *)
  if negb (existsb (Z.eqb sigma) [1; 2; 3]%Z)
  then Raise (ValueError "Sigma must be amongst the following integers: [1, 2, 3]")
  else
    (* maximum length of series is 50 *)
    match loc t_df (List.length series) (str sigma) with
    | Some t => Ok t
    | None => Raise (IndexError "Series is too big, maximum length is 50")
    end.

End Student.

(** ** classes.py: [CDContxt] *)

Module CDContxt.

(** An instance: the [path] given to [__init__] and the attribute
    [olddir], unset until [__enter__] has run. *)
Record instance : Type := {
  path : string;
  olddir : option string
}.

(** The process: its working directory and the [CDContxt] objects
    alive in it, by reference. *)
Record process : Type := {
  cwd : string;
  objects : nat -> instance
}.

Definition set_cwd (d : string) (st : process) : process :=
  {| cwd := d; objects := objects st |}.

Definition set_olddir (self : nat) (d : string) (st : process) : process :=
  {| cwd := cwd st;
     objects := fun r =>
       if Nat.eqb r self
       then {| path := path (objects st self); olddir := Some d |}
       else objects st r |}.

(** Statements a with-block may run. *)
Inductive stmt : Type :=
| Pass
| Chdir (p : string)               (* os.chdir(p) *)
| RaiseExn (e : exn)               (* raise e *)
| Seq (a b : stmt)
| With (cm : nat) (body : stmt).   (* with cm: body *)

(** Does the statement enter the instance [cm]? *)
Fixpoint enters (cm : nat) (s : stmt) : bool :=
  match s with
  | Pass | Chdir _ | RaiseExn _ => false
  | Seq a b => enters cm a || enters cm b
  | With cm' body => Nat.eqb cm' cm || enters cm body
  end.

Section Semantics.

(** The file system, fixed while the block runs: [resolve d p] is the
    directory [os.chdir(p)] leads to from [d], or the exception it
    raises there: [FileNotFoundError], [NotADirectoryError],
    [PermissionError] or another [OSError]. *)
Variable resolve : string -> string -> result string.

(** The directory of functions.py, where [cd()] goes. *)
Variable module_dir : string.

Definition chdir (p : string) (st : process) : process * option exn :=
  match resolve (cwd st) p with
  | Ok d => (set_cwd d st, None)
  | Raise e => (st, Some e)
  end.

Definition getcwd (st : process) : string := cwd st.

(* functions.cd: os.chdir(os.path.dirname(os.path.abspath(__file__))) *)
Definition cd (st : process) : process * option exn := chdir module_dir st.

Definition __enter__ (self : nat) (st : process) : process * option exn :=
  let st := set_olddir self (getcwd st) st in
  if negb (String.eqb (path (objects st self)) "")
  then chdir (path (objects st self)) st
  else cd st.

Definition __exit__ (self : nat) (st : process) : process * option exn :=
  match olddir (objects st self) with
  | Some d => chdir d st
  | None => (st, Some (AttributeError "olddir"))
  end.

(** Running a statement: the process afterwards and the exception in
    flight, if any.  A with-block calls [__exit__] whenever [__enter__]
    has returned; [__exit__] returns [None], so an exception of the body
    goes on after it. *)
Fixpoint exec (s : stmt) (st : process) : process * option exn :=
  match s with
  | Pass => (st, None)
  | Chdir p => chdir p st
  | RaiseExn e => (st, Some e)
  | Seq a b =>
      match exec a st with
      | (st1, None) => exec b st1
      | (st1, Some e) => (st1, Some e)
      end
  | With cm body =>
      match __enter__ cm st with
      | (st1, Some e) => (st1, Some e)
      | (st1, None) =>
          let (st2, r) := exec body st1 in
          match __exit__ cm st2 with
          | (st3, Some e) => (st3, Some e)
          | (st3, None) => (st3, r)
          end
      end
  end.

End Semantics.

End CDContxt.


(** ** classes.py: the rest of [Student] *)

Module StudentObject.

Local Open Scope Q_scope.

(** The attributes [__init__] sets. *)
Record instance : Type := {
  series : list Q;
  t : Q;
  _n : Q;
  _s : Q;
  mean : Q * Q;             (* ufloat: nominal value and standard deviation *)
  _factor_used : bool
}.

(** [numpy.mean] of a one-dimensional series. *)
Definition np_mean (l : list Q) : Q :=
  fold_right Qplus 0 l / inject_Z (Z.of_nat (List.length l)).

Section Construct.

(** [scipy.stats.sem], the standard error of the mean: it takes a square
    root, so it is left to the library. *)
Variable sem : list Q -> Q.

Definition new (series : list Q) (sigma : Z) : result instance :=
  t <- Student.__init__ series sigma ;;
  let n := np_mean series in
  let s := sem series in
  let mean := (n, t * s) in
  Ok {| series := series; t := t; _n := n; _s := s; mean := mean;
        (* True if self.mean.s != self._s else False *)
        _factor_used := negb (Qeq_bool (snd mean) s) |}.

End Construct.


(* __len__ and __getitem__ *)
Definition __len__ (self : instance) : nat := List.length (series self).

Definition __getitem__ (self : instance) (key : nat) : option Q :=
  nth_error (series self) key.

(** Adjacent entries do not grow. *)
Fixpoint nonincreasing (l : list Q) : bool :=
  match l with
  | [] => true
  | a :: l' =>
      match l' with
      | [] => true
      | b :: _ => Qle_bool b a && nonincreasing l'
      end
  end.

(** Entry by entry, the first list is strictly below the second. *)
Fixpoint pointwise_below (l1 l2 : list Q) : bool :=
  match l1, l2 with
  | a :: l1', b :: l2' => negb (Qle_bool b a) && pointwise_below l1' l2'
  | _, _ => true
  end.

End StudentObject.

(** ** More on [CDContxt] *)

Module CDContxtMore.

(** Where [__enter__] of an instance goes: its path, or the directory of
    functions.py when the path is empty. *)
Definition target (module_dir : string) (self : CDContxt.instance) : string :=
  if negb (String.eqb (CDContxt.path self) "")
  then CDContxt.path self
  else module_dir.

(** Statements that change directory only inside with-blocks, and whose
    with-blocks do not enter their own instance again. *)
Fixpoint scoped (s : CDContxt.stmt) : bool :=
  match s with
  | CDContxt.Pass => true
  | CDContxt.Chdir _ => false
  | CDContxt.RaiseExn _ => true
  | CDContxt.Seq a b => scoped a && scoped b
  | CDContxt.With cm body => negb (CDContxt.enters cm body)
  end.

End CDContxtMore.

(** ** write_table as a whole

    The data frame and its serialisation belong to pandas: [to_csv]
    stands for [df.to_csv] with the separator and line terminator of the
    source, as a function of the header, the [index] flag and the format
    specifier; [df_columns] for the column labels of the frame as
    text. *)

Inductive columns_arg : Type :=
| ColFlag (b : bool)            (* columns=False or columns=True *)
| ColNames (l : list text).     (* a list of names *)

(** How the caller passes [inner_settings]: not at all, so that the
    default list object of the function is used, or as a list of its
    own. *)
Inductive inner_arg : Type :=
| DefaultList
| OwnList (l : list text).

(** What a call leaves behind. *)
Record written : Type := {
  file : text;                          (* what has been written to [path] *)
  returned : option text;               (* the return value, [None] for None *)
  default_inner : list text;            (* the default list object afterwards *)
  passed_inner : option (list text)     (* the caller's list afterwards *)
}.

Definition newline : ascii := "010"%char.

(** Truth value of a string or a list: is it non-empty? *)
Definition nonempty {A : Type} (l : list A) : bool :=
  match l with
  | [] => false
  | _ :: _ => true
  end.

(* f"colspec={{{colspec}}}" *)
Definition colspec_entry (colspec : text) : text :=
  txt "colspec={" ++ colspec ++ txt "}".

(* f"{{{{{{{x}}}}}}}" *)
Definition braces3 (x : text) : text := txt "{{{" ++ x ++ txt "}}}".

(** The list [inner_settings] is bound to, after the append. *)
Definition append_colspec (colspec : text) (inner : list text) : list text :=
  if nonempty colspec then inner ++ [colspec_entry colspec] else inner.

(* f"\\begin{{{environ}}}{{{inner_settings_str}}}\n" f"{df_str}" f"\\end{{{environ}}}" *)
Definition environment (environ inner_settings_str df_str : text) : text :=
  txt "\begin{" ++ environ ++ txt "}{" ++ inner_settings_str ++ txt "}"
    ++ [newline] ++ df_str ++ txt "\end{" ++ environ ++ txt "}".

(* f"\\sisetup{{{sisetup_str}}}\n\n" *)
Definition sisetup_line (sisetup_str : text) : text :=
  txt "\sisetup{" ++ sisetup_str ++ txt "}" ++ [newline; newline].

Section WriteTableCalls.

Variable to_csv : columns_arg -> bool -> option text -> text.
Variable df_columns : list text.

(** lab_tool/write_table.py *)
Definition write_table_tex
    (default : list text)
    (environ colspec : text) (inner_settings : inner_arg)
    (columns : columns_arg) (index : bool) (format_spec : option text)
    (uarray : bool) (sisetup : list text) : written :=
  let inner := match inner_settings with
               | DefaultList => default
               | OwnList l => l
               end in
  (* if colspec: inner_settings.append(...) *)
  let inner := append_colspec colspec inner in
  (* wrap the names if columns is a list *)
  let columns := match columns with
                 | ColNames l => ColNames (map braces3 l)
                 | ColFlag b => ColFlag b
                 end in
  let sisetup_str := if nonempty sisetup
                     then Formatter.join (txt ", ") sisetup
                     else [] in
  let inner_settings_str := Formatter.join (txt ", ") inner in
  let df_str := to_csv columns index format_spec in
  let df_str := WriteTable.table_body uarray df_str in
  {| file := (if nonempty sisetup_str then sisetup_line sisetup_str else [])
               ++ environment environ inner_settings_str df_str;
     returned := None;
     default_inner := match inner_settings with
                      | DefaultList => inner
                      | OwnList _ => default
                      end;
     passed_inner := match inner_settings with
                     | DefaultList => None
                     | OwnList _ => Some inner
                     end |}.

(** labtool/src/functions.py *)
Definition write_table_plain
    (default : list text)
    (environ colspec : text) (inner_settings : inner_arg)
    (columns : columns_arg) (index : bool) (format_spec : option text)
    (uarray : bool) (sisetup : list text) : written :=
  let inner := match inner_settings with
               | DefaultList => default
               | OwnList l => l
               end in
  let inner := append_colspec colspec inner in
  (* if columns == True: columns = df.columns.tolist() *)
  let columns := match columns with
                 | ColFlag true => ColNames df_columns
                 | c => c
                 end in
  (* if isinstance(columns, list): wrap the names *)
  let columns := match columns with
                 | ColNames l => ColNames (map braces3 l)
                 | ColFlag b => ColFlag b
                 end in
  let sisetup_str := Formatter.join (txt ", ") sisetup in
  let inner_settings_str := Formatter.join (txt ", ") inner in
  let df_str := to_csv columns index format_spec in
  let df_str := Functions.table_body uarray df_str in
  let complete_str :=
    (if nonempty sisetup_str then sisetup_line sisetup_str else [])
      ++ environment environ inner_settings_str df_str in
  {| file := complete_str;
     returned := Some complete_str;
     default_inner := match inner_settings with
                      | DefaultList => inner
                      | OwnList _ => default
                      end;
     passed_inner := match inner_settings with
                     | DefaultList => None
                     | OwnList _ => Some inner
                     end |}.


End WriteTableCalls.

(** A character that can start neither substitution of the [uarray]
    branch: no slash and no opening parenthesis. *)
Definition inert_char (c : ascii) : bool :=
  negb (Ascii.eqb "/" c) && negb (Ascii.eqb "(" c).


(** ** classes.py: [_plot] and [AbstractFit.plot] *)

Module Plot.

(** Values of keyword arguments. *)
Inductive value : Type :=
| VBool (b : bool)
| VNone
| VStr (s : string)
| VNum (z : Z).

Definition truthy (v : value) : bool :=
  match v with
  | VBool b => b
  | VNone => false
  | VStr s => negb (String.eqb s "")
  | VNum z => negb (Z.eqb z 0)
  end.

(** [**kwargs]: a dict, in the order the caller wrote the arguments. *)
Definition kwargs : Type := list (string * value).

Fixpoint get (key : string) (d : kwargs) : option value :=
  match d with
  | [] => None
  | (k, v) :: d' => if String.eqb k key then Some v else get key d'
  end.

(** [d[key] = v]: in place when the key is there, at the end otherwise. *)
Fixpoint set (key : string) (v : value) (d : kwargs) : kwargs :=
  match d with
  | [] => [(key, v)]
  | (k, v') :: d' =>
      if String.eqb k key then (k, v) :: d' else (k, v') :: set key v d'
  end.

(** An entry of [plt.__dict__]. *)
Inductive attribute : Type :=
| Missing
| Callable
| NotCallable.

Inductive error : Type :=
| KeyError (key : string)
| TypeError (key : string).

(** A call of a pyplot function, with its argument if it got one. *)
Inductive call : Type :=
| Call (name : string) (arg : option value).

Definition call_name (c : call) : string :=
  match c with
  | Call name _ => name
  end.

(** What the loop does with a value: nothing for [False], a call without
    argument for [True], a call with the value otherwise. *)
Definition action (v : value) : option (option value) :=
  match v with
  | VBool true => Some None
  | VBool false => None
  | _ => Some (Some v)
  end.

Definition is_default (key : string) : bool :=
  String.eqb key "legend" || String.eqb key "grid" || String.eqb key "show".

Section Pyplot.

(** The names of the pyplot module; the functions themselves are taken
    to return. *)
Variable plt : string -> attribute.

(* for key in ("legend", "grid", "show"): kwargs[key] = kwargs.get(key, True) *)
Definition with_defaults (d : kwargs) : kwargs :=
  fold_left (fun d key =>
               set key (match get key d with
                        | Some v => v
                        | None => VBool true
                        end) d)
            ["legend"; "grid"; "show"]%string d.

(* for key, value in kwargs.items(): ... *)
Fixpoint loop (items : kwargs) : list call * option error :=
  match items with
  | [] => ([], None)
  | (key, v) :: rest =>
      if String.eqb key "show" then loop rest
      else
        match action v with
        | None => loop rest
        | Some arg =>
            match plt key with
            | Callable =>
                let (calls, e) := loop rest in (Call key arg :: calls, e)
            | Missing => ([], Some (KeyError key))
            | NotCallable => ([], Some (TypeError key))
            end
        end
  end.

(** The calls made, in order, and the exception if one was raised. *)
Definition _plot (d : kwargs) : list call * option error :=
  let d := with_defaults d in
  match loop d with
  | (calls, Some e) => (calls, Some e)
  | (calls, None) =>
      (* show must be last one to be called *)
      match get "show" d with
      | Some v =>
          if truthy v then (calls ++ [Call "show" None], None)
          else (calls, None)
      | None => (calls, Some (KeyError "show"))
      end
  end.

(** [AbstractFit.plot]: [kwargs] cannot hold [title], which is a
    parameter of its own.  Of the two [plt.plot] calls the log keeps the
    label; the data and the line style do not reach [_plot]. *)
Definition plot (_type : string) (label_in label_out : string)
    (title : option string) (d : kwargs) : list call * option error :=
  (* title = "" if title is not None else self._type *)
  let title := match title with
               | Some _ => ""%string
               | None => _type
               end in
  let (calls, e) := _plot (("title"%string, VStr title) :: d) in
  (Call "clf" None :: Call "plot" (Some (VStr label_in))
     :: Call "plot" (Some (VStr label_out)) :: calls, e).

End Pyplot.

(** The calls the loop makes when every name it needs is there. *)
Fixpoint wanted (items : kwargs) : list call :=
  match items with
  | [] => []
  | (key, v) :: rest =>
      if String.eqb key "show" then wanted rest
      else
        match action v with
        | None => wanted rest
        | Some arg => Call key arg :: wanted rest
        end
  end.

(** Entries that matter: everything but [False] under a name that is
    not one of the three defaults. *)
Definition matters (entry : string * value) : bool :=
  match action (snd entry) with
  | None => is_default (fst entry)
  | Some _ => true
  end.

Definition show_flag (d : kwargs) : bool :=
  match get "show" d with
  | Some v => truthy v
  | None => true
  end.

(** The entries the first loop of [_plot] adds. *)
Definition missing_key (key : string) (d : kwargs) : kwargs :=
  match get key d with
  | Some _ => []
  | None => [(key, VBool true)]
  end.

Definition missing (d : kwargs) : kwargs :=
  missing_key "legend" d ++ missing_key "grid" d ++ missing_key "show" d.

End Plot.

(** A pyplot that knows the names used in this development. *)
Definition pyplot (name : string) : Plot.attribute :=
  if existsb (String.eqb name)
       ["legend"; "grid"; "show"; "title"; "xlabel"; "ylabel"; "clf"; "plot"]%string
  then Plot.Callable
  else if String.eqb name "rcParams" then Plot.NotCallable
  else Plot.Missing.
(* ================================================================= *)
(** * Properties *)

(** ** The significant-digit rule *)

Section ResolverFacts.

Local Open Scope Q_scope.

Lemma ten_neq_0 : ~ 10 == 0.
Proof. discriminate. Qed.

End ResolverFacts.

(** ** The first-digit primitive computes the leading power of ten *)

Section FirstDigitFacts.

Local Open Scope Z_scope.

Lemma ilog10_fuel_spec (fuel : nat) : forall n : Z,
    1 <= n < 2 ^ Z.of_nat fuel ->
    0 <= uc.ilog10_fuel fuel n /\
    10 ^ uc.ilog10_fuel fuel n <= n < 10 ^ (uc.ilog10_fuel fuel n + 1).
Proof.
    induction fuel as [|fuel IH]; intros n Hn.
    - simpl in Hn. lia.
    - cbn [uc.ilog10_fuel]. destruct (Z.ltb_spec n 10) as [Hlt|Hge].
      + simpl. lia.
      + rewrite Nat2Z.inj_succ, Z.pow_succ_r in Hn by lia.
        assert (Hq : 1 <= n / 10 < 2 ^ Z.of_nat fuel).
        { split.
          - apply Z.div_le_lower_bound; lia.
          - apply Z.div_lt_upper_bound; lia. }
        destruct (IH _ Hq) as (H0 & Hlo & Hhi).
        pose proof (Z.div_mod n 10 ltac:(lia)) as Hdm.
        pose proof (Z.mod_pos_bound n 10 ltac:(lia)) as Hm.
        split; [lia|].
        replace (1 + uc.ilog10_fuel fuel (n / 10) + 1)
          with (Z.succ (uc.ilog10_fuel fuel (n / 10) + 1)) by lia.
        replace (1 + uc.ilog10_fuel fuel (n / 10))
          with (Z.succ (uc.ilog10_fuel fuel (n / 10))) by lia.
        rewrite !Z.pow_succ_r by lia. lia.
Qed.

Lemma ilog10_spec (n : Z) :
    1 <= n ->
    0 <= uc.ilog10 n /\ 10 ^ uc.ilog10 n <= n < 10 ^ (uc.ilog10 n + 1).
Proof.
    intros Hn. unfold uc.ilog10. apply ilog10_fuel_spec.
    split; [exact Hn|].
    rewrite Nat2Z.inj_succ, Z2Nat.id by apply Z.log2_nonneg.
    apply Z.log2_spec. lia.
Qed.

End FirstDigitFacts.

Section FloorLog10Facts.

Local Open Scope Q_scope.

Lemma pow10_inject (a : Z) : (0 <= a)%Z -> 10 ^ a == inject_Z (10 ^ a).
Proof. intros Ha. rewrite Zpower_Qpower by exact Ha. reflexivity. Qed.

Lemma pow10_quotient (a b : Z) :
    (0 <= a)%Z -> (0 <= b)%Z ->
    10 ^ (a - b) == inject_Z (10 ^ a) / inject_Z (10 ^ b).
Proof.
    intros Ha Hb.
    rewrite Qpower_minus by exact ten_neq_0.
    rewrite (pow10_inject _ Ha), (pow10_inject _ Hb). reflexivity.
Qed.

Lemma inject_Z_pos (z : Z) : (0 < z)%Z -> 0 < inject_Z z.
Proof. intros H. rewrite (Zlt_Qlt 0 z) in H. exact H. Qed.

  (** A quotient of integers lies strictly between two other such
      quotients as soon as the cross products do. *)
Lemma quotient_le (a b c d : Z) :
    (0 < b)%Z -> (0 < d)%Z -> (a * d <= c * b)%Z ->
    inject_Z a / inject_Z b <= inject_Z c / inject_Z d.
Proof.
    intros Hb Hd H.
    apply Qle_shift_div_r; [apply inject_Z_pos, Hb|].
    setoid_replace (inject_Z c / inject_Z d * inject_Z b)
      with (inject_Z c * inject_Z b / inject_Z d) by (unfold Qdiv; ring).
    apply Qle_shift_div_l; [apply inject_Z_pos, Hd|].
    rewrite <- !inject_Z_mult, <- Zle_Qle. exact H.
Qed.

Lemma quotient_lt (a b c d : Z) :
    (0 < b)%Z -> (0 < d)%Z -> (a * d < c * b)%Z ->
    inject_Z a / inject_Z b < inject_Z c / inject_Z d.
Proof.
    intros Hb Hd H.
    apply Qlt_shift_div_r; [apply inject_Z_pos, Hb|].
    setoid_replace (inject_Z c / inject_Z d * inject_Z b)
      with (inject_Z c * inject_Z b / inject_Z d) by (unfold Qdiv; ring).
    apply Qlt_shift_div_l; [apply inject_Z_pos, Hd|].
    rewrite <- !inject_Z_mult, <- Zlt_Qlt. exact H.
Qed.

Lemma floor_log10_spec (x : Q) :
    0 < x ->
    10 ^ uc.floor_log10 x <= x /\ x < 10 ^ (uc.floor_log10 x + 1).
Proof.
    intros Hx. unfold uc.floor_log10.
    destruct x as [p q]. cbn [Qnum Qden].
    assert (Hp : (1 <= p)%Z).
    { unfold Qlt in Hx. simpl in Hx. lia. }
    destruct (ilog10_spec _ Hp) as (Ha & Halo & Hahi).
    destruct (ilog10_spec (Zpos q) ltac:(lia)) as (Hb & Hblo & Hbhi).
    set (a := uc.ilog10 p) in *. set (b := uc.ilog10 (Zpos q)) in *.
    assert (HA : (0 < 10 ^ a)%Z) by (apply Z.pow_pos_nonneg; lia).
    assert (HB : (0 < 10 ^ b)%Z) by (apply Z.pow_pos_nonneg; lia).
    assert (Hxq : p # q == inject_Z p / inject_Z (Zpos q)) by apply Qmake_Qdiv.
    destruct (Qle_bool (10 ^ (a - b)) (p # q)) eqn:Hc.
    - apply Qle_bool_iff in Hc. split; [exact Hc|].
      replace (a - b + 1)%Z with ((a + 1) - b)%Z by lia.
      rewrite pow10_quotient by lia. rewrite Hxq.
      apply quotient_lt; [lia | lia |].
      apply Z.lt_le_trans with (10 ^ (a + 1) * 10 ^ b)%Z.
      + apply Z.mul_lt_mono_pos_r; lia.
      + apply Z.mul_le_mono_nonneg_l; [|lia].
        apply Z.pow_nonneg; lia.
    - assert (Hlt : p # q < 10 ^ (a - b)).
      { apply Qnot_le_lt. intro H. apply Qle_bool_iff in H. congruence. }
      split.
      + replace (a - b - 1)%Z with (a - (b + 1))%Z by lia.
        rewrite pow10_quotient by lia. rewrite Hxq.
        apply quotient_le; [apply Z.pow_pos_nonneg; lia | lia |].
        apply Z.le_trans with (p * Zpos q)%Z.
        * apply Z.mul_le_mono_nonneg_r; lia.
        * apply Z.mul_le_mono_nonneg_l; lia.
      + replace (a - b - 1 + 1)%Z with (a - b)%Z by lia. exact Hlt.
Qed.

End FloorLog10Facts.

(** ** The rule on binary64 numbers *)

Section ResolverClaims.

Lemma PDG_precision_raises
    (first_digit : float -> result Z) (std_dev : float) (e : exn) :
  first_digit std_dev = Raise e ->
  MonkeyPatch._PDG_precision first_digit std_dev = Raise e.
Proof.
  intros H. unfold MonkeyPatch._PDG_precision. rewrite H. reflexivity.
Qed.

Lemma first_digit_nonpositive (x : float) :
  (x <=? 0)%float = true ->
  uc.first_digit x = Raise (ValueError "math domain error").
Proof.
  intros H. unfold uc.first_digit. rewrite H. reflexivity.
Qed.

(** What the primitive returns is the leading power of ten of the number
    the float stands for. *)
Lemma first_digit_leading_power (x : float) (e : Z) :
  uc.first_digit x = Ok e ->
  exists q, Py.exact x = Some q /\ e = uc.floor_log10 q /\
            (0 < q -> 10 ^ e <= q /\ q < 10 ^ (e + 1))%Q.
Proof.
  unfold uc.first_digit. destruct (x <=? 0)%float; [discriminate|].
  destruct (Py.exact x) as [q|]; [|discriminate].
  intros H. injection H as <-. exists q.
  split; [reflexivity|]. split; [reflexivity|].
  apply floor_log10_spec.
Qed.

(** The digit count is 1 or 2 whenever the rule returns. *)
Lemma PDG_precision_digit_count
    (first_digit : float -> result Z) (std_dev : float)
    (digits : Z) (rounded : Py.number) :
  MonkeyPatch._PDG_precision first_digit std_dev = Ok (digits, rounded) ->
  digits = 1%Z \/ digits = 2%Z.
Proof.
  unfold MonkeyPatch._PDG_precision, bind.
  destruct (first_digit std_dev) as [e|]; [|discriminate].
  destruct (Py.mul_float std_dev (Py.pow10 (- e))) as [n|]; [|discriminate].
  destruct (n <=? 1.9)%float.
  - destruct (Py.mul_float n (Py.Int 10)) as [x|]; [|discriminate].
    destruct (Py.ceil x) as [c|]; [|discriminate].
    destruct (Py.mul (Py.Int c) (Py.pow10 (e - 1))); [|discriminate].
    intros H. injection H as <- _. right. reflexivity.
  - destruct (Py.ceil n) as [c|]; [|discriminate].
    destruct (Py.mul (Py.Int c) (Py.pow10 e)); [|discriminate].
    intros H. injection H as <- _. left. reflexivity.
Qed.

Lemma PDG_precision_at_exponent
    (first_digit : float -> result Z) (std_dev : float) (exponent : Z) :
  first_digit std_dev = Ok exponent ->
  MonkeyPatch._PDG_precision first_digit std_dev =
  PDG_precision_at exponent std_dev.
Proof.
  intros H. unfold PDG_precision_at, MonkeyPatch._PDG_precision.
  rewrite H. reflexivity.
Qed.

(** C1, a defect of the code: the rule is meant to round the standard
    deviation up, never down, but it scales by powers of ten in binary64
    and can return less than it was given.  For [std_dev = 1e-05] the
    exponent is [-5], the normalised value is exactly [1.0], the ceiling
    of [1.0 * 10] is [10], and the product [10 * 10**-6] is rounded to
    [9.999999999999999e-06], which is below [std_dev], as floats and as the
    rationals they stand for; the same happens at [1e-10].  This is so
    with every first-digit primitive that returns [-5] on [1e-05]. *)
Theorem PDG_precision_understates :
  uc.first_digit 1e-05 = Ok (-5)%Z /\
  Py.mul_float 1e-05 (Py.pow10 5) = Ok 1%float /\
  Py.pow10 (-6) = Py.Float 1e-06 /\
  PDG_precision 1e-05 = Ok (2%Z, Py.Float 9.999999999999999e-06) /\
  (9.999999999999999e-06 <? 1e-05)%float = true /\
  (exists rounded std_dev,
      Py.exact 9.999999999999999e-06 = Some rounded /\
      Py.exact 1e-05 = Some std_dev /\
      (rounded < std_dev)%Q) /\
  PDG_precision 1e-10 = Ok (2%Z, Py.Float 9.999999999999999e-11) /\
  (9.999999999999999e-11 <? 1e-10)%float = true /\
  PDG_precision_at (-5) 1e-05 = Ok (2%Z, Py.Float 9.999999999999999e-06).
Proof.
  repeat split; try (vm_compute; reflexivity).
  eexists. eexists.
  split; [vm_compute; reflexivity|].
  split; [vm_compute; reflexivity|].
  vm_compute. reflexivity.
Qed.

(** C2, a defect of the code: the branch and the ceiling are taken on
    the normalised value as binary64 computes it, not on
    [std_dev / 10 ^ exponent].  For [std_dev = 14.0] the exponent is [1]
    and the normalised value is 1.4, so that the rule of the spec gives
    [(2, 14)]; the code computes [14.0 * 10**-1 = 1.4000000000000001],
    then [14.000000000000002], whose ceiling is 15, and returns [(2, 15)].
    For [std_dev = 19.0] the normalised value is 1.9 and the rule gives
    [(2, 19)]; the code computes [1.9000000000000001 > 1.9] and returns
    [(1, 20)].  This is so with every first-digit primitive that returns
    [1] on these inputs. *)
Theorem PDG_precision_misses_branch :
  Py.pow10 (-1) = Py.Float 0.1 /\
  (uc.first_digit 14 = Ok 1%Z /\
   Py.mul_float 14 (Py.pow10 (-1)) = Ok 1.4000000000000001%float /\
   Py.mul_float 1.4000000000000001 (Py.Int 10) = Ok 14.000000000000002%float /\
   PDG_precision 14 = Ok (2%Z, Py.Int 15) /\
   PDG_precision_at 1 14 = Ok (2%Z, Py.Int 15) /\
   (exists q, Py.exact 14 = Some q /\ (q == 14)%Q) /\
   fst (rule_as_specified 14) = 2%Z /\
   (snd (rule_as_specified 14) == 14)%Q) /\
  (uc.first_digit 19 = Ok 1%Z /\
   Py.mul_float 19 (Py.pow10 (-1)) = Ok 1.9000000000000001%float /\
   (1.9000000000000001 <=? 1.9)%float = false /\
   PDG_precision 19 = Ok (1%Z, Py.Int 20) /\
   PDG_precision_at 1 19 = Ok (1%Z, Py.Int 20) /\
   (exists q, Py.exact 19 = Some q /\ (q == 19)%Q) /\
   fst (rule_as_specified 19) = 2%Z /\
   (snd (rule_as_specified 19) == 19)%Q).
Proof.
  split; [vm_compute; reflexivity|].
  split.
  { repeat split; try (vm_compute; reflexivity).
    eexists. split; vm_compute; reflexivity. }
  { repeat split; try (vm_compute; reflexivity).
    eexists. split; vm_compute; reflexivity. }
Qed.

(** C3: for [std_dev <= 0] the rule raises the domain error of the
    first-digit primitive; it has no handler of its own, so that it
    passes on whatever a primitive raises. *)
Theorem PDG_precision_domain_error (std_dev : float) :
  (std_dev <=? 0)%float = true ->
  PDG_precision std_dev = Raise (ValueError "math domain error") /\
  (forall (first_digit : float -> result Z) (e : exn),
     first_digit std_dev = Raise e ->
     MonkeyPatch._PDG_precision first_digit std_dev = Raise e).
Proof.
  intros H. split.
  - apply PDG_precision_raises. apply first_digit_nonpositive. exact H.
  - intros first_digit e He. apply PDG_precision_raises. exact He.
Qed.

Lemma PDG_precision_domain_error_witness :
  (PDG_precision 0 = Raise (ValueError "math domain error") /\
   (forall (first_digit : float -> result Z) (e : exn),
      first_digit 0%float = Raise e ->
      MonkeyPatch._PDG_precision first_digit 0 = Raise e)) /\
  (PDG_precision (-0.23) = Raise (ValueError "math domain error") /\
   (forall (first_digit : float -> result Z) (e : exn),
      first_digit (-0.23)%float = Raise e ->
      MonkeyPatch._PDG_precision first_digit (-0.23) = Raise e)).
Proof.
  split.
  - apply (PDG_precision_domain_error 0). reflexivity.
  - apply (PDG_precision_domain_error (-0.23)). reflexivity.
Defined.

(** C8, a defect of the code: on [0.23] the exponent is [-1], but the
    normalised value is computed as [2.3000000000000003] and the result is
    [(1, 0.30000000000000004)], the product [3 * 10**-1] in binary64, not
    [(1, 0.3)]: the value returned has seventeen significant digits, not
    one; this is so with every first-digit primitive that returns [-1]
    on [0.23].  On [0.15] the code returns what the spec says: exponent
    [-1], normalised value [1.5], result [(2, 0.15)]. *)
Theorem PDG_precision_concrete_cases :
  (uc.first_digit 0.23 = Ok (-1)%Z /\
   Py.mul_float 0.23 (Py.pow10 1) = Ok 2.3000000000000003%float /\
   (2.3000000000000003 =? 2.3)%float = false /\
   (2.3000000000000003 <=? 1.9)%float = false /\
   PDG_precision 0.23 = Ok (1%Z, Py.Float 0.30000000000000004) /\
   PDG_precision_at (-1) 0.23 = Ok (1%Z, Py.Float 0.30000000000000004) /\
   (0.30000000000000004 =? 0.3)%float = false /\
   fst (rule_as_specified 0.23) = 1%Z /\
   (snd (rule_as_specified 0.23) == 0.3)%Q) /\
  (uc.first_digit 0.15 = Ok (-1)%Z /\
   Py.mul_float 0.15 (Py.pow10 1) = Ok 1.5%float /\
   (1.5 <=? 1.9)%float = true /\
   PDG_precision 0.15 = Ok (2%Z, Py.Float 0.15)).
Proof.
  split; repeat split; vm_compute; reflexivity.
Qed.

End ResolverClaims.

(** ** The regular-expression engine *)

Section EngineFacts.

Import re.

Lemma consume_some (t : token) (r : option matched) (m : matched) :
  consume t r = Some m -> exists m', r = Some m' /\ m = t :: m'.
Proof.
  destruct r as [m'|]; simpl; intros H; [|discriminate].
  injection H as <-. exists m'. split; reflexivity.
Qed.

Lemma orelse_some (r1 r2 : option matched) (m : matched) :
  orelse r1 r2 = Some m -> r1 = Some m \/ (r1 = None /\ r2 = Some m).
Proof.
  destruct r1; simpl; intros H; [left; exact H | right; split; [reflexivity | exact H]].
Qed.

(** What [a*] consumed is a run of characters [a] accepts, and the
    continuation matched what follows. *)
Lemma greedy_inv (a : atom) (k : text -> option matched) :
  forall (s : text) (m : matched),
    greedy a k s = Some m ->
    exists ds s' m',
      s = ds ++ s' /\ forallb (accepts a) ds = true /\
      k s' = Some m' /\ m = map Ch ds ++ m'.
Proof.
  induction s as [|c s IH]; intros m H.
  - simpl in H. exists [], [], m. repeat split; assumption.
  - simpl in H. destruct (accepts a c) eqn:Hc.
    + apply orelse_some in H. destruct H as [H | [_ H]].
      * apply consume_some in H. destruct H as (m1 & H & ->).
        destruct (IH _ H) as (ds & s' & m' & -> & Hds & Hk & ->).
        exists (c :: ds), s', m'. simpl. rewrite Hc, Hds.
        repeat split; assumption.
      * exists [], (c :: s), m. repeat split; assumption.
    + exists [], (c :: s), m. repeat split; assumption.
Qed.

(** The longest repetition wins as soon as the continuation accepts
    after it. *)
Lemma greedy_longest (a : atom) (k : text -> option matched) :
  forall (ds s' : text) (m' : matched),
    forallb (accepts a) ds = true ->
    match s' with
    | [] => True
    | c :: _ => accepts a c = false
    end ->
    k s' = Some m' ->
    greedy a k (ds ++ s') = Some (map Ch ds ++ m').
Proof.
  induction ds as [|d ds IH]; intros s' m' Hds Hs' Hk.
  - simpl. destruct s' as [|c s']; simpl; [exact Hk|].
    rewrite Hs'. exact Hk.
  - simpl in Hds. apply andb_prop in Hds. destruct Hds as [Hd Hds].
    simpl. rewrite Hd, (IH s' m' Hds Hs' Hk). reflexivity.
Qed.

Lemma erase_chars (ds : text) (m : matched) :
  erase (map Ch ds ++ m) = ds ++ erase m.
Proof.
  induction ds as [|d ds IH]; simpl; [reflexivity|]. rewrite IH. reflexivity.
Qed.

(** The defining equations of [match_here], one per kind of item. *)
Lemma match_here_open (p : pattern) (s : text) :
  match_here (GOpen :: p) s = consume LB (match_here p s).
Proof. reflexivity. Qed.

Lemma match_here_close (p : pattern) (s : text) :
  match_here (GClose :: p) s = consume RB (match_here p s).
Proof. reflexivity. Qed.

Lemma match_here_one (a : atom) (p : pattern) (c : ascii) (s : text) :
  match_here (Atom a One :: p) (c :: s) =
  if accepts a c then consume (Ch c) (match_here p s) else None.
Proof. reflexivity. Qed.

Lemma match_here_opt (a : atom) (p : pattern) (c : ascii) (s : text) :
  match_here (Atom a Opt :: p) (c :: s) =
  if accepts a c
  then orelse (consume (Ch c) (match_here p s)) (match_here p (c :: s))
  else match_here p (c :: s).
Proof. reflexivity. Qed.

Lemma match_here_opt_nil (a : atom) (p : pattern) :
  match_here (Atom a Opt :: p) [] = match_here p [].
Proof. reflexivity. Qed.

Lemma match_here_plus (a : atom) (p : pattern) (c : ascii) (s : text) :
  match_here (Atom a Plus :: p) (c :: s) =
  if accepts a c then consume (Ch c) (match_here (Atom a Star :: p) s) else None.
Proof. reflexivity. Qed.

Lemma match_here_plus_nil (a : atom) (p : pattern) :
  match_here (Atom a Plus :: p) [] = None.
Proof. reflexivity. Qed.

Lemma star_inv (a : atom) (p : pattern) (s : text) (m : matched) :
  match_here (Atom a Star :: p) s = Some m ->
  exists ds s' m',
    s = ds ++ s' /\ forallb (accepts a) ds = true /\
    match_here p s' = Some m' /\ m = map Ch ds ++ m'.
Proof. apply greedy_inv. Qed.

Lemma star_longest (a : atom) (p : pattern)
    (ds s' : text) (m' : matched) :
  forallb (accepts a) ds = true ->
  match s' with
  | [] => True
  | c :: _ => accepts a c = false
  end ->
  match_here p s' = Some m' ->
  match_here (Atom a Star :: p) (ds ++ s') = Some (map Ch ds ++ m').
Proof. apply greedy_longest. Qed.

(** A match consumes a prefix of the text. *)
Lemma greedy_prefix (a : atom) (k : text -> option matched) :
  (forall s m, k s = Some m -> exists rest, s = erase m ++ rest) ->
  forall s m, greedy a k s = Some m -> exists rest, s = erase m ++ rest.
Proof.
  intros Hk s m H.
  destruct (greedy_inv a k s m H) as (ds & s' & m' & -> & _ & Hk' & ->).
  destruct (Hk _ _ Hk') as [rest ->]. exists rest.
  rewrite erase_chars, app_assoc. reflexivity.
Qed.

Lemma match_here_prefix :
  forall (p : pattern) (s : text) (m : matched),
    match_here p s = Some m -> exists rest, s = erase m ++ rest.
Proof.
  induction p as [|it p IH]; intros s m H.
  - simpl in H. injection H as <-. exists s. reflexivity.
  - destruct it as [a q| |].
    + destruct q.
      * simpl in H. destruct s as [|c s]; [discriminate|].
        destruct (accepts a c); [|discriminate].
        apply consume_some in H. destruct H as (m' & H & ->).
        destruct (IH _ _ H) as [rest ->]. exists rest. reflexivity.
      * simpl in H. destruct s as [|c s]; [exact (IH _ _ H)|].
        destruct (accepts a c); [|exact (IH _ _ H)].
        apply orelse_some in H. destruct H as [H | [_ H]]; [|exact (IH _ _ H)].
        apply consume_some in H. destruct H as (m' & H & ->).
        destruct (IH _ _ H) as [rest ->]. exists rest. reflexivity.
      * simpl in H. exact (greedy_prefix a _ (IH) s m H).
      * simpl in H. destruct s as [|c s]; [discriminate|].
        destruct (accepts a c); [|discriminate].
        apply consume_some in H. destruct H as (m' & H & ->).
        destruct (greedy_prefix a _ IH s m' H) as [rest ->].
        exists rest. reflexivity.
    + simpl in H. apply consume_some in H. destruct H as (m' & H & ->).
      exact (IH _ _ H).
    + simpl in H. apply consume_some in H. destruct H as (m' & H & ->).
      exact (IH _ _ H).
Qed.

(** Literal characters match themselves and nothing else. *)
Lemma match_lits_of (t : text) (p : pattern) :
  forall s : text,
    match_here (lits_of t ++ p) (t ++ s) =
    option_map (app (map Ch t)) (match_here p s).
Proof.
  induction t as [|c t IH]; intros s.
  - simpl. destruct (match_here p s); reflexivity.
  - simpl. rewrite Ascii.eqb_refl.
    change (map (fun c0 => Atom (Lit c0) One) t) with (lits_of t).
    rewrite IH. destruct (match_here p s); reflexivity.
Qed.

Lemma match_lits_of_inv (t : text) (p : pattern) :
  forall (s : text) (m : matched),
    match_here (lits_of t ++ p) s = Some m ->
    exists s' m', s = t ++ s' /\ match_here p s' = Some m' /\ m = map Ch t ++ m'.
Proof.
  induction t as [|c t IH]; intros s m H.
  - exists s, m. repeat split. exact H.
  - simpl in H. destruct s as [|c' s]; [discriminate|].
    destruct (Ascii.eqb c c') eqn:Hc; [|discriminate].
    apply Ascii.eqb_eq in Hc. subst c'.
    apply consume_some in H. destruct H as (m1 & H & ->).
    destruct (IH _ _ H) as (s' & m' & -> & Hm & ->).
    exists s', m'. repeat split. exact Hm.
Qed.

(** *** Substitution *)

Lemma sub_from_skip (p : pattern) (repl : template) :
  forall (x t : text),
    sub_from p repl (x ++ t) (List.length x) = sub_from p repl t 0.
Proof.
  induction x as [|c x IH]; intros t; [reflexivity|]. simpl. apply IH.
Qed.

(** At a match: the expanded template, then the rest of the text. *)
Lemma sub_at_match (p : pattern) (repl : template)
    (m : matched) (c : ascii) (x rest : text) :
  match_here p (c :: x ++ rest) = Some m ->
  erase m = c :: x ->
  sub p repl (c :: x ++ rest) = expand repl (groups m) ++ sub p repl rest.
Proof.
  intros Hm He. unfold sub. simpl. rewrite Hm, He. simpl.
  rewrite sub_from_skip. reflexivity.
Qed.

Lemma sub_no_match (p : pattern) (repl : template) (c : ascii) (s : text) :
  match_here p (c :: s) = None ->
  sub p repl (c :: s) = c :: sub p repl s.
Proof.
  intros H. unfold sub. simpl. rewrite H. reflexivity.
Qed.

Lemma occurs_cons (p : pattern) (c : ascii) (s : text) :
  occurs p (c :: s) = false ->
  match_here p (c :: s) = None /\ occurs p s = false.
Proof.
  simpl. destruct (match_here p (c :: s)); [discriminate|].
  intros H. split; [reflexivity | exact H].
Qed.

(** Where the pattern occurs nowhere, nothing is replaced. *)
Lemma sub_without_occurrence (p : pattern) (repl : template) :
  forall s : text, occurs p s = false -> sub p repl s = s.
Proof.
  induction s as [|c s IH]; intros H; [reflexivity|].
  apply occurs_cons in H. destruct H as [Hm Ho].
  rewrite (sub_no_match p repl c s Hm), (IH Ho). reflexivity.
Qed.

(** *** Characters of the output come from the text or the template *)

Section Chars.

Variable P : ascii -> bool.

Lemma groups_from_chars :
  forall (m : matched) (cur : option text),
    forallb P (erase m) = true ->
    match cur with Some g => forallb P g = true | None => True end ->
    forallb (forallb P) (groups_from m cur) = true.
Proof.
  induction m as [|t m IH]; intros cur Hm Hcur; [reflexivity|].
  destruct t as [c| |]; simpl in *.
  - apply andb_prop in Hm. destruct Hm as [Hc Hm].
    apply IH; [exact Hm|]. destruct cur as [g|]; simpl; [|exact I].
    rewrite forallb_app, Hcur. simpl. rewrite Hc. reflexivity.
  - apply IH; [exact Hm | reflexivity].
  - destruct cur as [g|]; simpl.
    + rewrite Hcur. apply IH; [exact Hm | exact I].
    + apply IH; [exact Hm | exact I].
Qed.

Lemma nth_chars (gs : list text) :
  forallb (forallb P) gs = true ->
  forall n, forallb P (nth n gs []) = true.
Proof.
  induction gs as [|g gs IH]; intros H n.
  - destruct n; reflexivity.
  - simpl in H. apply andb_prop in H. destruct H as [Hg Hgs].
    destruct n; simpl; [exact Hg | apply IH, Hgs].
Qed.

Lemma expand_chars (repl : template) (gs : list text) :
  template_chars P repl = true ->
  forallb (forallb P) gs = true ->
  forallb P (expand repl gs) = true.
Proof.
  intros Hr Hgs. unfold expand. induction repl as [|pc repl IH]; [reflexivity|].
  simpl in Hr. apply andb_prop in Hr. destruct Hr as [Hpc Hr].
  simpl. rewrite forallb_app, (IH Hr), andb_true_r.
  destruct pc as [t|n]; [exact Hpc | apply nth_chars, Hgs].
Qed.

Lemma forallb_app_l (x y : text) :
  forallb P (x ++ y) = true -> forallb P x = true.
Proof. rewrite forallb_app. intros H. apply andb_prop in H. apply H. Qed.

Lemma sub_from_chars (p : pattern) (repl : template) :
  template_chars P repl = true ->
  forall (s : text) (skip : nat),
    forallb P s = true -> forallb P (sub_from p repl s skip) = true.
Proof.
  intros Hr. induction s as [|c s IH]; intros skip Hs; [reflexivity|].
  simpl in Hs. apply andb_prop in Hs. destruct Hs as [Hc Hs].
  simpl. destruct skip as [|k]; [|apply IH, Hs].
  destruct (match_here p (c :: s)) as [m|] eqn:Hm.
  - destruct (List.length (erase m)) as [|n] eqn:Hn.
    + simpl. rewrite Hc. apply IH, Hs.
    + rewrite forallb_app, (IH n Hs), andb_true_r.
      apply expand_chars; [exact Hr|].
      apply groups_from_chars; [|exact I].
      destruct (match_here_prefix p (c :: s) m Hm) as [rest Hrest].
      apply forallb_app_l with rest. rewrite <- Hrest.
      simpl. rewrite Hc. exact Hs.
  - simpl. rewrite Hc. apply IH, Hs.
Qed.

End Chars.

End EngineFacts.

(** ** The first substitution: [+/-] between two digits *)

Section PlusMinusFacts.

Import re.

Lemma plus_minus_match (s : text) :
  match_here plus_minus_pattern s =
  match s with
  | d1 :: p :: sl :: mi :: d2 :: _ =>
      if is_digit d1 && Ascii.eqb "+" p && Ascii.eqb "/" sl
         && Ascii.eqb "-" mi && is_digit d2
      then Some [LB; Ch d1; RB; Ch p; Ch sl; Ch mi; LB; Ch d2; RB]
      else None
  | _ => None
  end.
Proof.
  unfold plus_minus_pattern.
  destruct s as [|d1 [|p [|sl [|mi [|d2 s]]]]];
    cbn [app lits lits_of txt list_ascii_of_string map match_here accepts];
    repeat (match goal with
            | |- context [is_digit ?c] => destruct (is_digit c)
            | |- context [Ascii.eqb ?a ?b] => destruct (Ascii.eqb a b)
            end; cbn [consume option_map andb]);
    reflexivity.
Qed.

(** A match of the pattern is never empty. *)
Lemma plus_minus_match_nonempty (s : text) (m : matched) :
  match_here plus_minus_pattern s = Some m -> List.length (erase m) = 5%nat.
Proof.
  rewrite plus_minus_match.
  destruct s as [|d1 [|p [|sl [|mi [|d2 rest]]]]]; try discriminate.
  destruct (is_digit d1 && Ascii.eqb "+" p && Ascii.eqb "/" sl
            && Ascii.eqb "-" mi && is_digit d2); [|discriminate].
  intros H. injection H as <-. reflexivity.
Qed.

(** The shape of a text at whose head the pattern matches. *)
Lemma plus_minus_at_inv (s : text) :
  Formatter.plus_minus_at s = true ->
  exists d1 d2 rest,
    s = d1 :: txt "+/-" ++ d2 :: rest /\
    is_digit d1 = true /\ is_digit d2 = true.
Proof.
  unfold Formatter.plus_minus_at. rewrite plus_minus_match.
  destruct s as [|d1 [|p [|sl [|mi [|d2 rest]]]]]; try discriminate.
  destruct (is_digit d1) eqn:H1; [|discriminate].
  destruct (Ascii.eqb "+" p) eqn:Hp; [|discriminate].
  destruct (Ascii.eqb "/" sl) eqn:Hs; [|discriminate].
  destruct (Ascii.eqb "-" mi) eqn:Hm; [|discriminate].
  destruct (is_digit d2) eqn:H2; [|discriminate].
  apply Ascii.eqb_eq in Hp, Hs, Hm. subst. intros _.
  exists d1, d2, rest. repeat split; assumption.
Qed.

Lemma plus_minus_at_digits (d1 d2 : ascii) (rest : text) :
  is_digit d1 = true -> is_digit d2 = true ->
  match_here plus_minus_pattern (d1 :: txt "+/-" ++ d2 :: rest) =
  Some [LB; Ch d1; RB; Ch "+"; Ch "/"; Ch "-"; LB; Ch d2; RB].
Proof.
  intros H1 H2. rewrite plus_minus_match. simpl. rewrite H1, H2. reflexivity.
Qed.

(** At an occurrence: the two digits with the spaced symbol between
    them, and the scan goes on behind the second digit. *)
Lemma replace_at_occurrence (sym : text) (d1 d2 : ascii) (rest : text) :
  is_digit d1 = true -> is_digit d2 = true ->
  Formatter.replace_plus_minus sym (d1 :: txt "+/-" ++ d2 :: rest) =
  d1 :: Formatter.spaced sym ++ d2 :: Formatter.replace_plus_minus sym rest.
Proof.
  intros H1 H2. unfold Formatter.replace_plus_minus, sub.
  cbn [txt list_ascii_of_string app sub_from].
  rewrite plus_minus_match, H1, H2.
  cbn. rewrite <- app_assoc. reflexivity.
Qed.

Lemma replace_no_occurrence (sym : text) (c : ascii) (s : text) :
  Formatter.plus_minus_at (c :: s) = false ->
  Formatter.replace_plus_minus sym (c :: s) =
  c :: Formatter.replace_plus_minus sym s.
Proof.
  unfold Formatter.plus_minus_at, Formatter.replace_plus_minus. intros H.
  apply sub_no_match.
  destruct (match_here plus_minus_pattern (c :: s)); [discriminate | reflexivity].
Qed.

(** A digit is none of the characters [+], [/] and [-]. *)
Lemma digit_not_sign (d : ascii) :
  is_digit d = true ->
  Ascii.eqb "+" d = false /\ Ascii.eqb "/" d = false /\ Ascii.eqb "-" d = false.
Proof.
  intros H. repeat split.
  - destruct (Ascii.eqb "+" d) eqn:E; [|reflexivity].
    apply Ascii.eqb_eq in E. subst d. discriminate H.
  - destruct (Ascii.eqb "/" d) eqn:E; [|reflexivity].
    apply Ascii.eqb_eq in E. subst d. discriminate H.
  - destruct (Ascii.eqb "-" d) eqn:E; [|reflexivity].
    apply Ascii.eqb_eq in E. subst d. discriminate H.
Qed.

Lemma ends_with_plus_minus_tail (c : ascii) (s : text) :
  Formatter.ends_with_plus_minus (c :: s) = false ->
  Formatter.ends_with_plus_minus s = false.
Proof.
  destruct s as [|a [|b [|c' [|d s]]]]; try reflexivity.
  intros H. exact H.
Qed.

(** A match cannot begin in [pre] and end in what follows, unless [pre]
    ends with a digit and [+/-]. *)
Lemma plus_minus_at_boundary (c : ascii) (pre : text)
    (d1 d2 : ascii) (post : text) :
  is_digit d1 = true ->
  Formatter.ends_with_plus_minus (c :: pre) = false ->
  Formatter.plus_minus_at (c :: pre ++ d1 :: txt "+/-" ++ d2 :: post) =
  Formatter.plus_minus_at (c :: pre).
Proof.
  intros H1 He. destruct (digit_not_sign d1 H1) as (Hp & Hs & Hm).
  unfold Formatter.plus_minus_at. rewrite !plus_minus_match.
  destruct pre as [|a [|b [|c' [|e pre]]]];
    cbn [app txt list_ascii_of_string].
  - rewrite Hp, !andb_false_r. reflexivity.
  - rewrite Hs, !andb_false_r. reflexivity.
  - rewrite Hm, !andb_false_r. reflexivity.
  - cbn [Formatter.ends_with_plus_minus] in He. rewrite He. reflexivity.
  - reflexivity.
Qed.

(** Scanning [pre] is not disturbed by an occurrence that follows it. *)
Lemma replace_before_occurrence (sym : text)
    (d1 d2 : ascii) (post : text) :
  is_digit d1 = true ->
  forall (n : nat) (pre : text),
    (List.length pre <= n)%nat ->
    Formatter.ends_with_plus_minus pre = false ->
    Formatter.replace_plus_minus sym (pre ++ d1 :: txt "+/-" ++ d2 :: post) =
    Formatter.replace_plus_minus sym pre
      ++ Formatter.replace_plus_minus sym (d1 :: txt "+/-" ++ d2 :: post).
Proof.
  intros H1. induction n as [|n IH]; intros pre Hn He.
  - destruct pre; [reflexivity | simpl in Hn; lia].
  - destruct pre as [|c pre]; [reflexivity|].
    destruct (Formatter.plus_minus_at (c :: pre)) eqn:Hat.
    + destruct (plus_minus_at_inv _ Hat) as (e1 & e2 & rest & Hpre & He1 & He2).
      rewrite Hpre in *. clear Hpre.
      change ((e1 :: txt "+/-" ++ e2 :: rest) ++ d1 :: txt "+/-" ++ d2 :: post)
        with (e1 :: txt "+/-" ++ e2 :: (rest ++ d1 :: txt "+/-" ++ d2 :: post)).
      rewrite !(replace_at_occurrence sym e1 e2 _ He1 He2).
      rewrite IH.
      * simpl. rewrite <- !app_assoc. reflexivity.
      * simpl in Hn. lia.
      * do 5 apply ends_with_plus_minus_tail in He. exact He.
    + rewrite (replace_no_occurrence sym c pre Hat).
      change ((c :: pre) ++ d1 :: txt "+/-" ++ d2 :: post)
        with (c :: pre ++ d1 :: txt "+/-" ++ d2 :: post).
      rewrite replace_no_occurrence
        by (rewrite (plus_minus_at_boundary c pre d1 d2 post H1 He); exact Hat).
      rewrite IH.
      * reflexivity.
      * simpl in Hn. lia.
      * apply ends_with_plus_minus_tail in He. exact He.
Qed.

(** *** The chunks of the first substitution *)

Lemma join_cons (sep x : text) (l : list text) :
  l <> [] -> Formatter.join sep (x :: l) = x ++ sep ++ Formatter.join sep l.
Proof. destruct l; [congruence | reflexivity]. Qed.

Lemma chunks_from_nonempty :
  forall (s : text) (k : nat) (cur : text), Formatter.chunks_from s k cur <> [].
Proof.
  induction s as [|c s IH]; intros k cur; simpl; [discriminate|].
  destruct k as [|[|k]]; try apply IH.
  destruct (Formatter.plus_minus_at (c :: s)); [discriminate | apply IH].
Qed.

Lemma join_chunks_from (sep : text) :
  forall (s : text) (k : nat) (cur : text),
    Formatter.join sep (Formatter.chunks_from s k cur) =
    cur ++ Formatter.join sep (Formatter.chunks_from s k []).
Proof.
  induction s as [|c s IH]; intros k cur.
  - simpl. rewrite app_nil_r. reflexivity.
  - simpl. destruct k as [|[|k]].
    + destruct (Formatter.plus_minus_at (c :: s)).
      * rewrite !join_cons by apply chunks_from_nonempty.
        rewrite <- app_assoc. reflexivity.
      * rewrite IH, (IH 0%nat [c]), <- app_assoc. reflexivity.
    + rewrite IH, (IH 0%nat [c]), <- app_assoc. reflexivity.
    + apply IH.
Qed.

(** The substitution is the chunks joined by the spaced symbol. *)
Lemma replace_as_chunks (sym : text) :
  forall (n : nat) (s : text),
    (List.length s <= n)%nat ->
    Formatter.replace_plus_minus sym s =
    Formatter.join (Formatter.spaced sym) (Formatter.chunks s).
Proof.
  unfold Formatter.chunks.
  induction n as [|n IH]; intros s Hn.
  - destruct s; [reflexivity | simpl in Hn; lia].
  - destruct s as [|c s]; [reflexivity|].
    destruct (Formatter.plus_minus_at (c :: s)) eqn:Hat.
    + destruct (plus_minus_at_inv _ Hat) as (d1 & d2 & rest & Hs & Hd1 & Hd2).
      rewrite Hs in *. clear Hs.
      rewrite (replace_at_occurrence sym d1 d2 rest Hd1 Hd2).
      cbn [txt list_ascii_of_string app] in Hat |- *.
      cbn [Formatter.chunks_from]. rewrite Hat.
      rewrite join_cons by apply chunks_from_nonempty.
      rewrite join_chunks_from. rewrite <- IH by (simpl in Hn; lia).
      simpl. rewrite <- app_assoc. reflexivity.
    + rewrite (replace_no_occurrence sym c s Hat).
      cbn [Formatter.chunks_from]. rewrite Hat.
      rewrite join_chunks_from. rewrite <- IH by (simpl in Hn; lia).
      reflexivity.
Qed.

End PlusMinusFacts.

(** ** The second substitution: parentheses before an exponent *)

Section DerivativeFacts.

Import re.

Lemma matches_consume (t : token) (r : option matched) :
  match consume t r with Some _ => true | None => false end =
  match r with Some _ => true | None => false end.
Proof. destruct r; reflexivity. Qed.

Lemma matches_orelse (r1 r2 : option matched) :
  match orelse r1 r2 with Some _ => true | None => false end =
  match r1 with Some _ => true | None => false end
  || match r2 with Some _ => true | None => false end.
Proof. destruct r1; reflexivity. Qed.

Lemma matches_nil (s : text) : matches [] s = true.
Proof. reflexivity. Qed.

Lemma matches_open (p : pattern) (s : text) :
  matches (GOpen :: p) s = matches p s.
Proof. unfold matches. simpl. apply matches_consume. Qed.

Lemma matches_close (p : pattern) (s : text) :
  matches (GClose :: p) s = matches p s.
Proof. unfold matches. simpl. apply matches_consume. Qed.

Lemma matches_one (a : atom) (p : pattern) (c : ascii) (s : text) :
  matches (Atom a One :: p) (c :: s) = accepts a c && matches p s.
Proof.
  unfold matches. simpl. destruct (accepts a c); [|reflexivity].
  apply matches_consume.
Qed.

Lemma matches_one_nil (a : atom) (p : pattern) :
  matches (Atom a One :: p) [] = false.
Proof. reflexivity. Qed.

Lemma matches_opt (a : atom) (p : pattern) (c : ascii) (s : text) :
  matches (Atom a Opt :: p) (c :: s) =
  (accepts a c && matches p s) || matches p (c :: s).
Proof.
  unfold matches. simpl. destruct (accepts a c); [|reflexivity].
  rewrite matches_orelse, matches_consume. reflexivity.
Qed.

Lemma matches_opt_nil (a : atom) (p : pattern) :
  matches (Atom a Opt :: p) [] = matches p [].
Proof. reflexivity. Qed.

Lemma matches_star (a : atom) (p : pattern) (c : ascii) (s : text) :
  matches (Atom a Star :: p) (c :: s) =
  (accepts a c && matches (Atom a Star :: p) s) || matches p (c :: s).
Proof.
  unfold matches. simpl. destruct (accepts a c); [|reflexivity].
  rewrite matches_orelse, matches_consume. reflexivity.
Qed.

Lemma matches_star_nil (a : atom) (p : pattern) :
  matches (Atom a Star :: p) [] = matches p [].
Proof. reflexivity. Qed.

Lemma matches_plus (a : atom) (p : pattern) (c : ascii) (s : text) :
  matches (Atom a Plus :: p) (c :: s) =
  accepts a c && matches (Atom a Star :: p) s.
Proof.
  unfold matches. simpl. destruct (accepts a c); [|reflexivity].
  apply matches_consume.
Qed.

Lemma matches_plus_nil (a : atom) (p : pattern) :
  matches (Atom a Plus :: p) [] = false.
Proof. reflexivity. Qed.

End DerivativeFacts.

Section AutomatonFacts.

Import re.
Import Formatter.

Variable sym : text.

(** A digit is none of the other characters the pattern names. *)
Lemma digit_not_punctuation (c : ascii) :
  is_digit c = true ->
  Ascii.eqb "." c = false /\ Ascii.eqb ")" c = false /\
  Ascii.eqb " " c = false /\ Ascii.eqb "(" c = false /\
  Ascii.eqb "e" c = false.
Proof.
  intros H. repeat split;
    match goal with
    | |- Ascii.eqb ?x c = false =>
        destruct (Ascii.eqb x c) eqn:E; [|reflexivity];
        apply Ascii.eqb_eq in E; subst c; discriminate H
    end.
Qed.

Lemma dot_not_closing (c : ascii) :
  Ascii.eqb "." c = true ->
  Ascii.eqb ")" c = false /\ Ascii.eqb " " c = false.
Proof.
  intros H. apply Ascii.eqb_eq in H. subst c. split; reflexivity.
Qed.

Lemma paren_pattern_unfold :
  paren_pattern sym =
  Atom (Lit "(") One :: residual sym (SFirst false).
Proof.
  unfold paren_pattern, residual, after_number, number_group, spaced, lits, lits_of.
  cbn [txt list_ascii_of_string map app].
  rewrite map_app. cbn [map]. rewrite <- !app_assoc. reflexivity.
Qed.

(** After the dot the automaton accepts no more than before it. *)
Lemma run_frac_int (g : bool) :
  forall s : text, run sym (SFrac g) s = true -> run sym (SInt g) s = true.
Proof.
  induction s as [|c s IH]; intros H; [discriminate|].
  cbn [run step] in *. destruct (is_digit c); [exact (IH H)|].
  destruct (Ascii.eqb "." c) eqn:Hdot; [|exact H].
  destruct (dot_not_closing c Hdot) as [Hc Hs].
  unfold close_number in H. rewrite Hc, Hs in H. destruct g; discriminate.
Qed.

Lemma matches_after_number (g : bool) (c : ascii) (s : text) :
  matches (after_number sym g) (c :: s) =
  match close_number sym g c with
  | Go q => matches (residual sym q) s
  | _ => false
  end.
Proof.
  unfold after_number, close_number. destruct g.
  - change (lits ")e") with [Atom (Lit ")") One; Atom (Lit "e") One].
    rewrite matches_one. cbn [accepts].
    destruct (Ascii.eqb ")" c); reflexivity.
  - rewrite matches_one. cbn [accepts].
    destruct (Ascii.eqb " " c); reflexivity.
Qed.

Lemma matches_after_number_nil (g : bool) :
  matches (after_number sym g) [] = false.
Proof. destruct g; reflexivity. Qed.

(** The automaton accepts exactly where the rest of the pattern
    matches. *)
Lemma matches_residual :
  forall (s : text) (q : state),
    matches (residual sym q) s = run sym q s.
Proof.
  induction s as [|c s IH]; intros q.
  - destruct q as [| g | g | g | rem |]; cbn [run].
    + change (residual sym SOpen) with (paren_pattern sym).
      rewrite paren_pattern_unfold. reflexivity.
    + reflexivity.
    + cbn [residual app].
      rewrite matches_star_nil, matches_opt_nil, matches_star_nil, matches_close.
      apply matches_after_number_nil.
    + cbn [residual app]. rewrite matches_star_nil, matches_close.
      apply matches_after_number_nil.
    + destruct rem; reflexivity.
    + reflexivity.
  - destruct q as [| g | g | g | rem |]; cbn [run step].
    + change (residual sym SOpen) with (paren_pattern sym).
      rewrite paren_pattern_unfold, matches_one. cbn [accepts].
      destruct (Ascii.eqb "(" c); [apply IH | reflexivity].
    + cbn [residual app]. rewrite matches_open, matches_plus. cbn [accepts].
      destruct (is_digit c); [apply (IH (SInt g)) | reflexivity].
    + cbn [residual app].
      rewrite matches_star, matches_opt, matches_star, matches_close.
      cbn [accepts].
      rewrite matches_after_number.
      change (Atom Digit Star :: Atom (Lit ".") Opt :: Atom Digit Star
                :: GClose :: after_number sym g)
        with (residual sym (SInt g)).
      change (Atom Digit Star :: GClose :: after_number sym g)
        with (residual sym (SFrac g)).
      rewrite !IH.
      destruct (is_digit c) eqn:Hd.
      * destruct (digit_not_punctuation c Hd) as (Hdot & Hc & Hs & _).
        rewrite Hdot. unfold close_number. rewrite Hc, Hs.
        cbn [andb orb].
        destruct (run sym (SFrac g) s) eqn:Hf.
        -- rewrite (run_frac_int g s Hf). destruct g; reflexivity.
        -- destruct g; cbn [orb]; rewrite orb_false_r; reflexivity.
      * cbn [andb orb]. destruct (Ascii.eqb "." c) eqn:Hdot.
        -- destruct (dot_not_closing c Hdot) as [Hc Hs].
           unfold close_number. rewrite Hc, Hs.
           destruct g; cbn [andb]; rewrite orb_false_r; reflexivity.
        -- cbn [andb orb]. unfold close_number.
           destruct g; [destruct (Ascii.eqb ")" c) | destruct (Ascii.eqb " " c)];
             try reflexivity; apply IH.
    + cbn [residual app]. rewrite matches_star, matches_close.
      cbn [accepts]. rewrite matches_after_number.
      change (Atom Digit Star :: GClose :: after_number sym g)
        with (residual sym (SFrac g)).
      rewrite IH.
      destruct (is_digit c) eqn:Hd.
      * destruct (digit_not_punctuation c Hd) as (_ & Hc & Hs & _).
        unfold close_number. rewrite Hc, Hs.
        destruct g; cbn [andb]; rewrite orb_false_r; reflexivity.
      * cbn [andb orb]. unfold close_number.
        destruct g; [destruct (Ascii.eqb ")" c) | destruct (Ascii.eqb " " c)];
          try reflexivity; apply IH.
    + destruct rem as [|r rem].
      * cbn [residual lits_of map app]. rewrite matches_one. cbn [accepts].
        destruct (Ascii.eqb " " c); [apply (IH (SFirst true)) | reflexivity].
      * cbn [residual lits_of map app]. rewrite matches_one. cbn [accepts].
        destruct (Ascii.eqb r c); [apply (IH (SSym rem)) | reflexivity].
    + change (residual sym SE) with [Atom (Lit "e") One].
      rewrite matches_one. cbn [accepts].
      destruct (Ascii.eqb "e" c); reflexivity.
Qed.

Lemma matches_paren_pattern (s : text) :
  matches (paren_pattern sym) s = run sym SOpen s.
Proof. apply (matches_residual s SOpen). Qed.

End AutomatonFacts.

Section NumberFacts.

Import re.
Import Formatter.

Lemma digits_split (t : text) : t = digits_prefix t ++ after_digits t.
Proof.
  induction t as [|c t IH]; [reflexivity|]. simpl.
  destruct (is_digit c); [|reflexivity]. simpl. rewrite <- IH. reflexivity.
Qed.

Lemma digits_prefix_digits (t : text) :
  forallb is_digit (digits_prefix t) = true.
Proof.
  induction t as [|c t IH]; [reflexivity|]. simpl.
  destruct (is_digit c) eqn:Hc; [|reflexivity]. simpl. rewrite Hc. exact IH.
Qed.

Lemma digits_prefix_app (ds r : text) :
  forallb is_digit ds = true ->
  digits_prefix (ds ++ r) = ds ++ digits_prefix r /\
  after_digits (ds ++ r) = after_digits r.
Proof.
  induction ds as [|d ds IH]; intros H; [split; reflexivity|].
  simpl in H. apply andb_prop in H. destruct H as [Hd Hds].
  destruct (IH Hds) as [IH1 IH2]. simpl. rewrite Hd, IH1, IH2.
  split; reflexivity.
Qed.

(** The shape of a number: a digit, digits, then nothing or a dot and
    digits. *)
Lemma is_number_inv (t : text) :
  is_number t = true ->
  exists d i r,
    t = d :: i ++ r /\ is_digit d = true /\ forallb is_digit i = true /\
    (r = [] \/ exists r', r = "."%char :: r' /\ forallb is_digit r' = true).
Proof.
  unfold is_number. intros H.
  pose proof (digits_split t) as Hsplit.
  pose proof (digits_prefix_digits t) as Hdig.
  destruct (digits_prefix t) as [|d i]; [discriminate|].
  simpl in Hdig. apply andb_prop in Hdig. destruct Hdig as [Hd Hi].
  exists d, i, (after_digits t). repeat split; try assumption.
  destruct (after_digits t) as [|c r]; [left; reflexivity|].
  apply andb_prop in H. destruct H as [Hc Hr].
  apply Ascii.eqb_eq in Hc. subst c. right. exists r. split; [reflexivity | exact Hr].
Qed.

Lemma is_number_intro (d : ascii) (i r : text) :
  is_digit d = true -> forallb is_digit i = true ->
  (r = [] \/ exists r', r = "."%char :: r' /\ forallb is_digit r' = true) ->
  is_number (d :: i ++ r) = true.
Proof.
  intros Hd Hi Hr. unfold is_number.
  assert (Hdi : forallb is_digit (d :: i) = true) by (simpl; rewrite Hd; exact Hi).
  destruct (digits_prefix_app (d :: i) r Hdi) as [H1 H2].
  change (d :: i ++ r) with ((d :: i) ++ r). rewrite H1, H2. simpl.
  destruct Hr as [-> | (r' & -> & Hr')]; [reflexivity|].
  simpl. exact Hr'.
Qed.

Lemma is_number_numeric (t : text) : is_number t = true -> numeric t = true.
Proof.
  intros H. destruct (is_number_inv t H) as (d & i & r & -> & Hd & Hi & Hr).
  unfold numeric. rewrite Hd. cbn [andb]. rewrite forallb_app.
  assert (Hw : forall u, forallb is_digit u = true ->
            forallb (fun x => is_digit x || Ascii.eqb "." x) u = true).
  { induction u as [|x u IH]; [reflexivity|]. cbn [forallb]. intros Hu.
    apply andb_prop in Hu. destruct Hu as [Hx Hu]. rewrite Hx, (IH Hu). reflexivity. }
  rewrite (Hw i Hi). cbn [andb].
  destruct Hr as [-> | (r' & -> & Hr')]; [reflexivity|].
  cbn [forallb]. rewrite Ascii.eqb_refl, orb_true_r. exact (Hw r' Hr').
Qed.

Lemma number_group_unfold (p : pattern) :
  number_group ++ p =
  GOpen :: Atom Digit Plus :: Atom (Lit ".") Opt :: Atom Digit Star
    :: GClose :: p.
Proof. reflexivity. Qed.

(** The group reads a number that is followed by neither a digit nor a
    dot, and hands over to the rest of the pattern. *)
Lemma number_group_matches (p : pattern) (A : text)
    (c : ascii) (tail : text) (m : matched) :
  is_number A = true ->
  is_digit c = false -> Ascii.eqb "." c = false ->
  match_here p (c :: tail) = Some m ->
  match_here (number_group ++ p) (A ++ c :: tail) =
  Some (LB :: map Ch A ++ RB :: m).
Proof.
  intros HA Hc Hdot Hm.
  destruct (is_number_inv A HA) as (d & i & r & -> & Hd & Hi & Hr).
  assert (Hfrac : forall ds, forallb is_digit ds = true ->
            match_here (Atom Digit Star :: GClose :: p) (ds ++ c :: tail) =
            Some (map Ch ds ++ RB :: m)).
  { intros ds Hds.
    apply (star_longest Digit (GClose :: p) ds (c :: tail) (RB :: m) Hds Hc).
    rewrite match_here_close, Hm. reflexivity. }
  assert (Hrest : match_here (Atom (Lit ".") Opt :: Atom Digit Star :: GClose :: p)
                    (r ++ c :: tail) = Some (map Ch r ++ RB :: m)).
  { destruct Hr as [-> | (r' & -> & Hr')].
    - cbn [app map]. rewrite match_here_opt. cbn [accepts]. rewrite Hdot.
      exact (Hfrac [] eq_refl).
    - cbn [app map]. rewrite match_here_opt. cbn [accepts].
      rewrite Ascii.eqb_refl, (Hfrac r' Hr'). reflexivity. }
  rewrite number_group_unfold, match_here_open.
  change ((d :: i ++ r) ++ c :: tail) with (d :: (i ++ r) ++ c :: tail).
  rewrite match_here_plus. cbn [accepts]. rewrite Hd, <- app_assoc.
  rewrite (star_longest Digit _ i (r ++ c :: tail) (map Ch r ++ RB :: m) Hi).
  - cbn [consume option_map map]. rewrite map_app. cbn [app].
    rewrite <- app_assoc. reflexivity.
  - destruct Hr as [-> | (r' & -> & _)]; [exact Hc | reflexivity].
  - exact Hrest.
Qed.

(** Conversely, what the group has read is a number. *)
Lemma number_group_inv (p : pattern) (s : text) (m : matched) :
  match_here (number_group ++ p) s = Some m ->
  exists A tail m',
    s = A ++ tail /\ is_number A = true /\
    match_here p tail = Some m' /\ m = LB :: map Ch A ++ RB :: m'.
Proof.
  rewrite number_group_unfold, match_here_open. intros H.
  apply consume_some in H. destruct H as (m1 & H & ->).
  destruct s as [|d s]; [discriminate|].
  rewrite match_here_plus in H. cbn [accepts] in H.
  destruct (is_digit d) eqn:Hd; [|discriminate].
  apply consume_some in H. destruct H as (m2 & H & ->).
  apply star_inv in H. destruct H as (i & s2 & m3 & -> & Hi & H & ->).
  change (forallb is_digit i = true) in Hi.
  assert (Hfrac : forall u mu,
            match_here (Atom Digit Star :: GClose :: p) u = Some mu ->
            exists ds tail m', u = ds ++ tail /\ forallb is_digit ds = true /\
              match_here p tail = Some m' /\ mu = map Ch ds ++ RB :: m').
  { intros u mu Hu. apply star_inv in Hu.
    destruct Hu as (ds & tail & m4 & -> & Hds & Hk & ->).
    change (forallb is_digit ds = true) in Hds.
    rewrite match_here_close in Hk. apply consume_some in Hk.
    destruct Hk as (m' & Hk & ->). exists ds, tail, m'. repeat split; assumption. }
  assert (Hnodot : match_here (Atom Digit Star :: GClose :: p) s2 = Some m3 ->
            exists A tail m',
              d :: i ++ s2 = A ++ tail /\ is_number A = true /\
              match_here p tail = Some m' /\
              LB :: Ch d :: map Ch i ++ m3 = LB :: map Ch A ++ RB :: m').
  { intros H'.
    destruct (Hfrac _ _ H') as (ds & tail & m' & -> & Hds & Hk & ->).
    exists (d :: (i ++ ds) ++ []), tail, m'. repeat split.
    - rewrite app_nil_r. cbn [app]. rewrite <- app_assoc. reflexivity.
    - apply is_number_intro; [exact Hd | | left; reflexivity].
      rewrite forallb_app, Hi, Hds. reflexivity.
    - exact Hk.
    - rewrite app_nil_r. cbn [map app]. rewrite map_app, <- app_assoc.
      reflexivity. }
  destruct s2 as [|c s2].
  - rewrite match_here_opt_nil in H. apply Hnodot. exact H.
  - rewrite match_here_opt in H. cbn [accepts] in H.
    destruct (Ascii.eqb "." c) eqn:Hdot.
    + apply orelse_some in H. destruct H as [H | [_ H]]; [|apply Hnodot; exact H].
      apply consume_some in H. destruct H as (m4 & H & ->).
      apply Ascii.eqb_eq in Hdot. subst c.
      destruct (Hfrac _ _ H) as (ds & tail & m' & -> & Hds & Hk & ->).
      exists (d :: i ++ "."%char :: ds), tail, m'. repeat split.
      * cbn [app]. rewrite <- app_assoc. reflexivity.
      * apply is_number_intro; [exact Hd | exact Hi |].
        right. exists ds. split; [reflexivity | exact Hds].
      * exact Hk.
      * cbn [map app]. rewrite map_app. cbn [map app].
        rewrite <- app_assoc. reflexivity.
    + apply Hnodot. exact H.
Qed.

End NumberFacts.

Section ParenMatchFacts.

Import re.
Import Formatter.

Variable sym : text.

Lemma spaced_app (x : text) :
  spaced sym ++ x = " "%char :: sym ++ " "%char :: x.
Proof. unfold spaced. cbn [app]. rewrite <- app_assoc. reflexivity. Qed.

Lemma paren_pattern_parts :
  paren_pattern sym =
  lits_of ["("%char]
    ++ (number_group
          ++ (lits_of (spaced sym)
                ++ (number_group ++ (lits_of (txt ")e") ++ [])))).
Proof. unfold paren_pattern, lits. rewrite app_nil_r. reflexivity. Qed.

(** The pattern matches a parenthesised pair of numbers before [e]. *)
Lemma paren_pattern_matches (A B rest : text) :
  is_number A = true -> is_number B = true ->
  match_here (paren_pattern sym) (paren_text sym A B ++ rest) =
  Some (paren_matched sym A B).
Proof.
  intros HA HB. rewrite paren_pattern_parts.
  assert (H1 : match_here (lits_of (txt ")e") ++ []) (txt ")e" ++ rest) =
               Some [Ch ")"; Ch "e"]).
  { rewrite match_lits_of. reflexivity. }
  assert (H2 : match_here (number_group ++ (lits_of (txt ")e") ++ []))
                 (B ++ txt ")e" ++ rest) =
               Some (LB :: map Ch B ++ RB :: [Ch ")"; Ch "e"])).
  { apply (number_group_matches _ B ")" ("e"%char :: rest));
      [exact HB | reflexivity | reflexivity | exact H1]. }
  assert (H3 : match_here
                 (lits_of (spaced sym)
                    ++ (number_group ++ (lits_of (txt ")e") ++ [])))
                 (spaced sym ++ B ++ txt ")e" ++ rest) =
               Some (map Ch (spaced sym)
                       ++ LB :: map Ch B ++ RB :: [Ch ")"; Ch "e"])).
  { rewrite match_lits_of, H2. reflexivity. }
  assert (H4 : match_here
                 (number_group
                    ++ (lits_of (spaced sym)
                          ++ (number_group ++ (lits_of (txt ")e") ++ []))))
                 (A ++ spaced sym ++ B ++ txt ")e" ++ rest) =
               Some (LB :: map Ch A ++ RB :: map Ch (spaced sym)
                       ++ LB :: map Ch B ++ RB :: [Ch ")"; Ch "e"])).
  { rewrite spaced_app.
    apply (number_group_matches _ A " " (sym ++ " "%char :: B ++ txt ")e" ++ rest));
      [exact HA | reflexivity | reflexivity |].
    rewrite <- spaced_app. exact H3. }
  unfold paren_text.
  replace (("("%char :: A ++ spaced sym ++ B ++ txt ")e") ++ rest)
    with (["("%char] ++ (A ++ spaced sym ++ B ++ txt ")e" ++ rest)).
  - rewrite match_lits_of, H4. reflexivity.
  - cbn [app]. rewrite <- !app_assoc. reflexivity.
Qed.

(** And it matches nothing else. *)
Lemma paren_pattern_inv (s : text) (m : matched) :
  match_here (paren_pattern sym) s = Some m ->
  exists A B rest,
    is_number A = true /\ is_number B = true /\
    s = paren_text sym A B ++ rest /\ m = paren_matched sym A B.
Proof.
  rewrite paren_pattern_parts. intros H.
  apply match_lits_of_inv in H. destruct H as (s1 & m1 & -> & H & ->).
  apply number_group_inv in H.
  destruct H as (A & s2 & m2 & -> & HA & H & ->).
  apply match_lits_of_inv in H. destruct H as (s3 & m3 & -> & H & ->).
  apply number_group_inv in H.
  destruct H as (B & s4 & m4 & -> & HB & H & ->).
  apply match_lits_of_inv in H. destruct H as (rest & m5 & -> & H & ->).
  cbn [match_here] in H. injection H as <-.
  exists A, B, rest. repeat split; try assumption.
  unfold paren_text. cbn [app]. rewrite <- !app_assoc. reflexivity.
Qed.

Lemma groups_from_chars_run (x : text) (m : matched) :
  forall cur : option text,
    groups_from (map Ch x ++ m) cur =
    groups_from m (option_map (fun g => g ++ x) cur).
Proof.
  induction x as [|c x IH]; intros cur.
  - destruct cur; simpl; [rewrite app_nil_r|]; reflexivity.
  - cbn [map app groups_from]. rewrite IH.
    destruct cur; simpl; [rewrite <- app_assoc|]; reflexivity.
Qed.

Lemma paren_matched_groups (A B : text) :
  groups (paren_matched sym A B) = [A; B].
Proof.
  unfold groups, paren_matched. cbn [groups_from option_map].
  rewrite groups_from_chars_run. cbn [groups_from option_map app].
  rewrite groups_from_chars_run. cbn [groups_from option_map app].
  rewrite groups_from_chars_run. reflexivity.
Qed.

Lemma paren_matched_erase (A B : text) :
  erase (paren_matched sym A B) = paren_text sym A B.
Proof.
  unfold paren_matched, paren_text. cbn [erase].
  rewrite erase_chars. cbn [erase]. rewrite erase_chars. cbn [erase].
  rewrite erase_chars. reflexivity.
Qed.

(** A match of the pattern is never empty. *)
Lemma paren_match_nonempty (s : text) (m : matched) :
  match_here (paren_pattern sym) s = Some m -> erase m <> [].
Proof.
  intros H. destruct (paren_pattern_inv s m H) as (A & B & rest & _ & _ & _ & ->).
  rewrite paren_matched_erase. discriminate.
Qed.

(** At a parenthesised pair: the pair without parentheses, a space
    before [e], and the scan goes on behind [e]. *)
Lemma delete_at_pair (A B rest : text) :
  is_number A = true -> is_number B = true ->
  delete_parentheses sym (paren_text sym A B ++ rest) =
  pair_text sym A B ++ delete_parentheses sym rest.
Proof.
  intros HA HB. unfold delete_parentheses.
  pose proof (paren_pattern_matches A B rest HA HB) as Hm.
  unfold paren_text in *. cbn [app] in *.
  rewrite (sub_at_match (paren_pattern sym) (paren_template sym)
             (paren_matched sym A B) "(" (A ++ spaced sym ++ B ++ txt ")e")
             rest Hm (paren_matched_erase A B)).
  rewrite paren_matched_groups. unfold pair_text, paren_template, expand.
  cbn [flat_map nth Nat.sub]. rewrite app_nil_r, <- !app_assoc. reflexivity.
Qed.

Lemma delete_no_pair (c : ascii) (s : text) :
  matches (paren_pattern sym) (c :: s) = false ->
  delete_parentheses sym (c :: s) = c :: delete_parentheses sym s.
Proof.
  unfold matches, delete_parentheses. intros H. apply sub_no_match.
  destruct (match_here (paren_pattern sym) (c :: s)); [discriminate | reflexivity].
Qed.

End ParenMatchFacts.

Section OverlapFacts.

Import re.
Import Formatter.

Variable sym : text.
Hypothesis sym_fine : sym_ok sym = true.

Lemma run_feed (t : text) :
  forall (x : text) (q : state),
    run sym q (x ++ t) =
    match feed sym q x with
    | Go q' => run sym q' t
    | Accept => true
    | Dead => false
    end.
Proof.
  induction x as [|c x IH]; intros q; [reflexivity|].
  cbn [app run feed]. destruct (step sym q c); try reflexivity. apply IH.
Qed.

Lemma sym_char_ok_inv (c : ascii) :
  sym_char_ok c = true ->
  is_digit c = false /\ Ascii.eqb c "." = false /\ Ascii.eqb c " " = false /\
  Ascii.eqb c "(" = false /\ Ascii.eqb c ")" = false /\
  Ascii.eqb c dquote = false /\ Ascii.eqb c "/" = false.
Proof.
  unfold sym_char_ok. intros H.
  repeat (apply andb_prop in H; destruct H as [H ?]).
  repeat split; apply negb_true_iff; assumption.
Qed.

(** No step leads back before the opening parenthesis, and what is left
    of the symbol stays free of digits and brackets. *)
Lemma step_wf (q q' : state) (c : ascii) :
  wf_state q = true -> step sym q c = Go q' ->
  wf_state q' = true /\ q' <> SOpen.
Proof.
  intros Hwf H. destruct q as [| g | g | g | rem |]; cbn [step] in H.
  - destruct (Ascii.eqb "(" c); inversion H. split; [reflexivity | discriminate].
  - destruct (is_digit c); inversion H. split; [reflexivity | discriminate].
  - destruct (is_digit c); [inversion H; split; [reflexivity | discriminate]|].
    destruct (Ascii.eqb "." c); [inversion H; split; [reflexivity | discriminate]|].
    unfold close_number in H.
    destruct g; [destruct (Ascii.eqb ")" c) | destruct (Ascii.eqb " " c)];
      inversion H; split; try reflexivity; try discriminate. exact sym_fine.
  - destruct (is_digit c); [inversion H; split; [reflexivity | discriminate]|].
    unfold close_number in H.
    destruct g; [destruct (Ascii.eqb ")" c) | destruct (Ascii.eqb " " c)];
      inversion H; split; try reflexivity; try discriminate. exact sym_fine.
  - destruct rem as [|r rem].
    + destruct (Ascii.eqb " " c); inversion H. split; [reflexivity | discriminate].
    + destruct (Ascii.eqb r c); inversion H. split; [|discriminate].
      cbn [wf_state sym_ok forallb] in Hwf |- *.
      apply andb_prop in Hwf. apply Hwf.
  - destruct (Ascii.eqb "e" c); inversion H.
Qed.

Lemma feed_wf :
  forall (x : text) (q q' : state),
    wf_state q = true -> feed sym q x = Go q' -> wf_state q' = true.
Proof.
  induction x as [|c x IH]; intros q q' Hwf H.
  - cbn [feed] in H. inversion H. subst. exact Hwf.
  - cbn [feed] in H. destruct (step sym q c) as [| | q1] eqn:Hs; try discriminate.
    destruct (step_wf q q1 c Hwf Hs) as [Hwf1 _]. exact (IH q1 q' Hwf1 H).
Qed.

Lemma feed_not_open :
  forall (x : text) (c : ascii) (q q' : state),
    wf_state q = true -> feed sym q (c :: x) = Go q' -> q' <> SOpen.
Proof.
  induction x as [|d x IH]; intros c q q' Hwf H.
  - cbn [feed] in H. destruct (step sym q c) as [| | q1] eqn:Hs; try discriminate.
    inversion H. subst. exact (proj2 (step_wf q q' c Hwf Hs)).
  - cbn [feed] in H. destruct (step sym q c) as [| | q1] eqn:Hs; try discriminate.
    destruct (step_wf q q1 c Hwf Hs) as [Hwf1 _].
    apply (IH d q1 q' Hwf1). exact H.
Qed.

(** Only the first state reads an opening parenthesis. *)
Lemma step_paren (q : state) :
  wf_state q = true -> q <> SOpen -> step sym q "(" = Dead.
Proof.
  intros Hwf Hq. destruct q as [| g | g | g | rem |]; try reflexivity.
  - congruence.
  - destruct g; reflexivity.
  - destruct g; reflexivity.
  - destruct rem as [|r rem]; [reflexivity|].
    cbn [wf_state sym_ok forallb] in Hwf. apply andb_prop in Hwf.
    destruct Hwf as [Hr _].
    destruct (sym_char_ok_inv r Hr) as (_ & _ & _ & Hp & _).
    cbn [step]. rewrite Hp. reflexivity.
Qed.

Lemma feed_number_body (g : bool) :
  forall (t : text) (q : state),
    forallb (fun x => is_digit x || Ascii.eqb "." x) t = true ->
    q = SInt g \/ q = SFrac g ->
    reads_number (feed sym q t) g.
Proof.
  induction t as [|c t IH]; intros q Ht Hq.
  - cbn [feed]. destruct Hq as [-> | ->]; [right; left | right; right]; reflexivity.
  - cbn [forallb] in Ht. apply andb_prop in Ht. destruct Ht as [Hc Ht].
    cbn [feed]. destruct Hq as [-> | ->]; cbn [step].
    + destruct (is_digit c); [apply IH; [exact Ht | left; reflexivity]|].
      cbn [orb] in Hc. rewrite Hc. apply IH; [exact Ht | right; reflexivity].
    + destruct (is_digit c); [apply IH; [exact Ht | right; reflexivity]|].
      cbn [orb] in Hc. apply Ascii.eqb_eq in Hc. subst c.
      left. destruct g; reflexivity.
Qed.

Lemma feed_numeric_first (g : bool) (A : text) :
  numeric A = true -> reads_number (feed sym (SFirst g) A) g.
Proof.
  unfold numeric. destruct A as [|d A]; [discriminate|]. intros H.
  apply andb_prop in H. destruct H as [Hd HA].
  cbn [feed step]. rewrite Hd.
  apply feed_number_body; [exact HA | left; reflexivity].
Qed.

Lemma feed_numeric (q : state) (A : text) :
  wf_state q = true -> numeric A = true ->
  exists g, reads_number (feed sym q A) g.
Proof.
  intros Hwf HA. destruct q as [| g | g | g | rem |].
  - exists false. left. unfold numeric in HA. destruct A as [|d A]; [discriminate|].
    apply andb_prop in HA. destruct HA as [Hd _].
    destruct (digit_not_punctuation d Hd) as (_ & _ & _ & Hp & _).
    cbn [feed step]. rewrite Hp. reflexivity.
  - exists g. apply feed_numeric_first, HA.
  - exists g. unfold numeric in HA. destruct A as [|d A]; [discriminate|].
    apply andb_prop in HA. destruct HA as [Hd HA].
    cbn [feed step]. rewrite Hd.
    apply feed_number_body; [exact HA | left; reflexivity].
  - exists g. unfold numeric in HA. destruct A as [|d A]; [discriminate|].
    apply andb_prop in HA. destruct HA as [Hd HA].
    cbn [feed step]. rewrite Hd.
    apply feed_number_body; [exact HA | right; reflexivity].
  - exists false. left. unfold numeric in HA. destruct A as [|d A]; [discriminate|].
    apply andb_prop in HA. destruct HA as [Hd _].
    destruct (digit_not_punctuation d Hd) as (_ & _ & Hs & _).
    destruct rem as [|r rem]; cbn [feed step].
    + rewrite Hs. reflexivity.
    + cbn [wf_state sym_ok forallb] in Hwf. apply andb_prop in Hwf.
      destruct Hwf as [Hr _].
      destruct (sym_char_ok_inv r Hr) as (Hrd & _).
      destruct (Ascii.eqb r d) eqn:E; [|reflexivity].
      apply Ascii.eqb_eq in E. subst r. congruence.
  - exists false. left. unfold numeric in HA. destruct A as [|d A]; [discriminate|].
    apply andb_prop in HA. destruct HA as [Hd _].
    destruct (digit_not_punctuation d Hd) as (_ & _ & _ & _ & He).
    cbn [feed step]. rewrite He. reflexivity.
Qed.

Lemma feed_symbol :
  forall (x rem : text), feed sym (SSym (x ++ rem)) x = Go (SSym rem).
Proof.
  induction x as [|c x IH]; intros rem; [reflexivity|].
  cbn [app feed step]. rewrite Ascii.eqb_refl. apply IH.
Qed.

(** The automaton never survives the text that replaces a match. *)
Lemma run_over_pair (q : state) (A B u : text) :
  wf_state q = true -> numeric A = true -> numeric B = true ->
  run sym q (pair_text sym A B ++ u) = false.
Proof.
  intros Hwf HA HB. unfold pair_text.
  rewrite <- !app_assoc, (run_feed _ A q).
  assert (Hsecond : forall q2, q2 = SInt true \/ q2 = SFrac true ->
            run sym q2 (txt " e" ++ u) = false).
  { intros q2 [-> | ->]; reflexivity. }
  assert (Hfirst : forall q1, q1 = SInt false \/ q1 = SFrac false ->
            run sym q1 (spaced sym ++ B ++ txt " e" ++ u) = false).
  { intros q1 Hq1. rewrite spaced_app.
    assert (Hstep : step sym q1 " " = Go (SSym sym))
      by (destruct Hq1 as [-> | ->]; reflexivity).
    cbn [run]. rewrite Hstep.
    rewrite (run_feed _ sym (SSym sym)).
    pose proof (feed_symbol sym []) as Hf. rewrite app_nil_r in Hf. rewrite Hf.
    cbn [run step]. rewrite Ascii.eqb_refl.
    rewrite (run_feed _ B (SFirst true)).
    destruct (feed_numeric_first true B HB) as [-> | [-> | ->]];
      [reflexivity | apply Hsecond; left; reflexivity
      | apply Hsecond; right; reflexivity]. }
  destruct (feed_numeric q A Hwf HA) as [g [-> | [-> | ->]]]; [reflexivity | |].
  - destruct g; [|apply Hfirst; left; reflexivity].
    rewrite spaced_app. reflexivity.
  - destruct g; [|apply Hfirst; right; reflexivity].
    rewrite spaced_app. reflexivity.
Qed.

End OverlapFacts.

Section DeleteParenthesesFacts.

Import re.
Import Formatter.

Variable sym : text.
Hypothesis sym_fine : sym_ok sym = true.

Lemma matches_true_inv (p : pattern) (s : text) :
  matches p s = true -> exists m, match_here p s = Some m.
Proof.
  unfold matches. destruct (match_here p s) as [m|]; [|discriminate].
  intros _. exists m. reflexivity.
Qed.

Lemma paren_text_length (A B rest : text) :
  (List.length rest < List.length (paren_text sym A B ++ rest))%nat.
Proof. unfold paren_text. cbn [app List.length]. rewrite length_app. lia. Qed.

(** The automaton accepts nothing in the output that it did not accept
    in the input. *)
Lemma run_after_delete :
  forall (n : nat) (s : text),
    (List.length s <= n)%nat ->
    forall q : state,
      wf_state q = true ->
      run sym q (delete_parentheses sym s) = true -> run sym q s = true.
Proof.
  induction n as [|n IH]; intros s Hn q Hwf H.
  - destruct s; [discriminate H | simpl in Hn; lia].
  - destruct s as [|c s]; [discriminate H|].
    destruct (matches (paren_pattern sym) (c :: s)) eqn:Hm.
    + apply matches_true_inv in Hm. destruct Hm as [m Hm].
      destruct (paren_pattern_inv sym _ _ Hm) as (A & B & rest & HA & HB & Hs & _).
      rewrite Hs, (delete_at_pair sym A B rest HA HB) in H.
      rewrite (run_over_pair sym q A B _ Hwf
                 (is_number_numeric A HA) (is_number_numeric B HB)) in H.
      discriminate H.
    + rewrite (delete_no_pair sym c s Hm) in H. cbn [run] in H |- *.
      destruct (step sym q c) as [| | q'] eqn:Hs; try assumption.
      apply (IH s); [simpl in Hn; lia | | exact H].
      exact (proj1 (step_wf sym sym_fine q q' c Hwf Hs)).
Qed.

(** Text without an opening parenthesis is copied. *)
Lemma delete_skips (u : text) :
  forall x : text,
    forallb (fun c => negb (Ascii.eqb "(" c)) x = true ->
    delete_parentheses sym (x ++ u) = x ++ delete_parentheses sym u.
Proof.
  induction x as [|c x IH]; intros Hx; [reflexivity|].
  cbn [forallb] in Hx. apply andb_prop in Hx. destruct Hx as [Hc Hx].
  cbn [app]. rewrite delete_no_pair, (IH Hx); [reflexivity|].
  rewrite paren_pattern_unfold, matches_one. cbn [accepts].
  apply negb_true_iff in Hc. rewrite Hc. reflexivity.
Qed.

Lemma numeric_no_paren (A : text) :
  numeric A = true -> forallb (fun c => negb (Ascii.eqb "(" c)) A = true.
Proof.
  unfold numeric. destruct A as [|d A]; [discriminate|]. intros H.
  apply andb_prop in H. destruct H as [Hd HA]. cbn [forallb].
  destruct (digit_not_punctuation d Hd) as (_ & _ & _ & Hp & _). rewrite Hp.
  cbn [negb andb]. induction A as [|c A IH]; [reflexivity|].
  cbn [forallb] in HA |- *. apply andb_prop in HA. destruct HA as [Hc HA].
  rewrite (IH HA), andb_true_r.
  apply orb_prop in Hc. destruct Hc as [Hc | Hc].
  - destruct (digit_not_punctuation c Hc) as (_ & _ & _ & Hp' & _).
    rewrite Hp'. reflexivity.
  - apply Ascii.eqb_eq in Hc. subst c. reflexivity.
Qed.

Lemma sym_no_paren :
  forall x : text,
    sym_ok x = true -> forallb (fun c => negb (Ascii.eqb "(" c)) x = true.
Proof.
  induction x as [|c x IH]; intros H; [reflexivity|].
  cbn [sym_ok forallb] in H |- *. apply andb_prop in H. destruct H as [Hc Hx].
  destruct (sym_char_ok_inv c Hc) as (_ & _ & _ & Hp & _).
  rewrite Ascii.eqb_sym, Hp. exact (IH Hx).
Qed.

Lemma pair_text_no_paren (A B : text) :
  numeric A = true -> numeric B = true ->
  forallb (fun c => negb (Ascii.eqb "(" c)) (pair_text sym A B) = true.
Proof.
  intros HA HB. unfold pair_text, spaced.
  rewrite !forallb_app. cbn [forallb app].
  rewrite (numeric_no_paren A HA), (numeric_no_paren B HB).
  rewrite forallb_app, (sym_no_paren sym sym_fine). reflexivity.
Qed.

(** Deleting the parentheses a second time changes nothing. *)
Lemma delete_parentheses_idempotent :
  forall (n : nat) (s : text),
    (List.length s <= n)%nat ->
    delete_parentheses sym (delete_parentheses sym s) =
    delete_parentheses sym s.
Proof.
  induction n as [|n IH]; intros s Hn.
  - destruct s; [reflexivity | simpl in Hn; lia].
  - destruct s as [|c s]; [reflexivity|].
    destruct (matches (paren_pattern sym) (c :: s)) eqn:Hm.
    + apply matches_true_inv in Hm. destruct Hm as [m Hm].
      destruct (paren_pattern_inv sym _ _ Hm) as (A & B & rest & HA & HB & Hs & _).
      rewrite Hs, (delete_at_pair sym A B rest HA HB).
      rewrite (delete_skips _ _ (pair_text_no_paren A B
                 (is_number_numeric A HA) (is_number_numeric B HB))).
      rewrite IH; [reflexivity|].
      pose proof (paren_text_length A B rest) as Hlen.
      rewrite <- Hs in Hlen. simpl in Hn, Hlen. lia.
    + rewrite (delete_no_pair sym c s Hm).
      rewrite delete_no_pair, IH; [reflexivity | simpl in Hn; lia |].
      destruct (matches (paren_pattern sym) (c :: delete_parentheses sym s))
        eqn:Hm'; [|reflexivity].
      rewrite matches_paren_pattern in Hm'.
      rewrite <- (delete_no_pair sym c s Hm) in Hm'.
      apply (run_after_delete (S n) (c :: s) Hn SOpen eq_refl) in Hm'.
      rewrite <- matches_paren_pattern, Hm in Hm'. discriminate Hm'.
Qed.

(** A parenthesised pair is replaced wherever it stands: what comes
    before it is scanned as if it stood alone. *)
Lemma delete_before_pair (A B post : text) :
  is_number A = true -> is_number B = true ->
  forall (n : nat) (pre : text),
    (List.length pre <= n)%nat ->
    delete_parentheses sym (pre ++ paren_text sym A B ++ post) =
    delete_parentheses sym pre
      ++ delete_parentheses sym (paren_text sym A B ++ post).
Proof.
  intros HA HB. induction n as [|n IH]; intros pre Hn.
  - destruct pre; [reflexivity | simpl in Hn; lia].
  - destruct pre as [|c pre]; [reflexivity|].
    destruct (matches (paren_pattern sym) (c :: pre)) eqn:Hm.
    + apply matches_true_inv in Hm. destruct Hm as [m Hm].
      destruct (paren_pattern_inv sym _ _ Hm)
        as (A' & B' & rest & HA' & HB' & Hs & _).
      rewrite Hs, <- app_assoc.
      rewrite !(delete_at_pair sym A' B' _ HA' HB'), <- app_assoc.
      rewrite IH; [reflexivity|].
      pose proof (paren_text_length A' B' rest) as Hlen.
      rewrite <- Hs in Hlen. simpl in Hn, Hlen. lia.
    + rewrite (delete_no_pair sym c pre Hm). cbn [app].
      rewrite delete_no_pair, IH; [reflexivity | simpl in Hn; lia |].
      rewrite matches_paren_pattern in Hm |- *.
      change (c :: pre ++ paren_text sym A B ++ post)
        with ((c :: pre) ++ paren_text sym A B ++ post).
      rewrite run_feed.
      pose proof (run_feed sym [] (c :: pre) SOpen) as Hrun.
      rewrite app_nil_r, Hm in Hrun.
      destruct (feed sym SOpen (c :: pre)) as [| | q'] eqn:Hf.
      * reflexivity.
      * discriminate Hrun.
      * unfold paren_text. cbn [app run].
        rewrite (step_paren sym q'); [reflexivity | |].
        -- exact (feed_wf sym sym_fine (c :: pre) SOpen q' eq_refl Hf).
        -- exact (feed_not_open sym sym_fine pre c SOpen q' eq_refl Hf).
Qed.

End DeleteParenthesesFacts.

(** ** Student factors *)

Section StudentFacts.

Lemma position_seq (label : nat) :
  forall (len start : nat),
    Student.position label (seq start len) =
    if (start <=? label)%nat && (label <? start + len)%nat
    then Some (label - start)%nat
    else None.
Proof.
  induction len as [|len IH]; intros start.
  - simpl. destruct (Nat.leb_spec start label), (Nat.ltb_spec label (start + 0));
      simpl; try reflexivity; lia.
  - simpl. rewrite IH.
    destruct (Nat.eqb_spec start label) as [->|Hne].
    + rewrite Nat.leb_refl, Nat.sub_diag.
      destruct (Nat.ltb_spec label (label + S len)); [reflexivity | lia].
    + destruct (Nat.leb_spec (S start) label), (Nat.leb_spec start label),
        (Nat.ltb_spec label (S start + len)), (Nat.ltb_spec label (start + S len));
        simpl; try lia; try reflexivity.
      f_equal. lia.
Qed.

(** A row label is in the index exactly when it lies in 2..50. *)
Lemma position_in_index (n : nat) :
  Student.position n (Student.index Student.t_df) =
  if (2 <=? n)%nat && (n <? 51)%nat then Some (n - 2)%nat else None.
Proof. apply (position_seq n 49 2). Qed.

Lemma sigma_cases (sigma : Z) :
  existsb (Z.eqb sigma) [1; 2; 3]%Z = true <->
  (sigma = 1 \/ sigma = 2 \/ sigma = 3)%Z.
Proof.
  cbn [existsb]. rewrite !orb_true_iff, !Z.eqb_eq.
  split; [intros [H|[H|[H|H]]]; [tauto | tauto | tauto | discriminate] | tauto].
Qed.

(** Every cell of the table is there: 49 rows in each column. *)
Lemma loc_in_range (n : nat) (sigma : Z) :
  (sigma = 1 \/ sigma = 2 \/ sigma = 3)%Z ->
  (2 <= n <= 50)%nat ->
  exists t, Student.loc Student.t_df n (Student.str sigma) = Some t.
Proof.
  intros Hs Hn. unfold Student.loc. rewrite position_in_index.
  destruct (Nat.leb_spec 2 n); [|lia].
  destruct (Nat.ltb_spec n 51); [|lia]. cbn [andb].
  assert (Hlt : (n - 2 < 49)%nat) by lia.
  assert (Hcol : exists v,
    Student.column (Student.str sigma) (Student.columns Student.t_df) = Some v /\
    List.length v = 49%nat).
  { destruct Hs as [-> | [-> | ->]];
      [exists Student.t_df_1 | exists Student.t_df_2 | exists Student.t_df_3];
      split; reflexivity. }
  destruct Hcol as (v & -> & Hv).
  destruct (nth_error v (n - 2)) as [t|] eqn:E.
  - exists t. reflexivity.
  - apply nth_error_None in E. lia.
Qed.

Lemma loc_out_of_range (n : nat) (col : string) :
  ~ (2 <= n <= 50)%nat -> Student.loc Student.t_df n col = None.
Proof.
  intros Hn. unfold Student.loc. rewrite position_in_index.
  destruct (Nat.leb_spec 2 n), (Nat.ltb_spec n 51); try reflexivity. lia.
Qed.

End StudentFacts.

(** C9: construction succeeds exactly when sigma is 1, 2 or 3 and the
    series has between 2 and 50 entries; any other sigma raises the
    ValueError, whatever the series; with a valid sigma, any length
    outside 2..50, lengths 0 and 1 included, raises the IndexError that
    calls the series too big. *)
Theorem Student_init_outcomes (series : list Q) (sigma : Z) :
  ((exists t, Student.__init__ series sigma = Ok t) <->
   ((sigma = 1 \/ sigma = 2 \/ sigma = 3)%Z /\
    (2 <= List.length series <= 50)%nat)) /\
  (~ (sigma = 1 \/ sigma = 2 \/ sigma = 3)%Z ->
   Student.__init__ series sigma =
   Raise (ValueError "Sigma must be amongst the following integers: [1, 2, 3]")) /\
  ((sigma = 1 \/ sigma = 2 \/ sigma = 3)%Z ->
   ~ (2 <= List.length series <= 50)%nat ->
   Student.__init__ series sigma =
   Raise (IndexError "Series is too big, maximum length is 50")).
Proof.
  assert (Hbad : ~ (sigma = 1 \/ sigma = 2 \/ sigma = 3)%Z ->
    Student.__init__ series sigma =
    Raise (ValueError "Sigma must be amongst the following integers: [1, 2, 3]")).
  { intros Hs. unfold Student.__init__.
    destruct (existsb (Z.eqb sigma) [1; 2; 3]%Z) eqn:E; [|reflexivity].
    apply sigma_cases in E. contradiction. }
  assert (Hlen : (sigma = 1 \/ sigma = 2 \/ sigma = 3)%Z ->
    ~ (2 <= List.length series <= 50)%nat ->
    Student.__init__ series sigma =
    Raise (IndexError "Series is too big, maximum length is 50")).
  { intros Hs Hn. unfold Student.__init__.
    apply sigma_cases in Hs. rewrite Hs. cbn [negb].
    rewrite (loc_out_of_range _ _ Hn). reflexivity. }
  split; [|split; assumption].
  split.
  - intros [t Ht].
    destruct (Z.eq_dec sigma 1) as [H1|H1];
      [|destruct (Z.eq_dec sigma 2) as [H2|H2];
        [|destruct (Z.eq_dec sigma 3) as [H3|H3]]].
    4: { rewrite Hbad in Ht by lia. discriminate. }
    all: assert (Hs : (sigma = 1 \/ sigma = 2 \/ sigma = 3)%Z) by lia;
      split; [exact Hs|];
      destruct (le_dec 2 (List.length series));
      destruct (le_dec (List.length series) 50); try lia;
      rewrite (Hlen Hs) in Ht by lia; discriminate.
  - intros [Hs Hn]. unfold Student.__init__.
    destruct (loc_in_range _ _ Hs Hn) as [t Ht].
    apply sigma_cases in Hs. rewrite Hs, Ht. cbn [negb]. exists t. reflexivity.
Qed.

(** ** The directory context manager *)

Section CDContxtFacts.

Import CDContxt.

Variable resolve : string -> string -> result string.
Variable module_dir : string.

Lemma chdir_objects (p : string) (st : process) :
  objects (fst (chdir resolve p st)) = objects st.
Proof. unfold chdir. destruct (resolve (cwd st) p); reflexivity. Qed.

Lemma enter_objects (self other : nat) (st : process) :
  other <> self ->
  objects (fst (__enter__ resolve module_dir self st)) other = objects st other.
Proof.
  intros Hne. unfold __enter__, cd.
  destruct (negb _); rewrite chdir_objects; simpl;
    destruct (Nat.eqb_spec other self); congruence.
Qed.

Lemma enter_olddir (self : nat) (st : process) :
  olddir (objects (fst (__enter__ resolve module_dir self st)) self) =
  Some (cwd st).
Proof.
  unfold __enter__, cd.
  destruct (negb _); rewrite chdir_objects; simpl;
    rewrite Nat.eqb_refl; reflexivity.
Qed.

(** If [__enter__] raises, the working directory has not moved. *)
Lemma enter_failure (self : nat) (st : process) (e : exn) :
  snd (__enter__ resolve module_dir self st) = Some e ->
  cwd (fst (__enter__ resolve module_dir self st)) = cwd st.
Proof.
  unfold __enter__, cd, chdir. simpl.
  destruct (negb _); destruct (resolve (cwd st) _); simpl;
    intros H; try discriminate; reflexivity.
Qed.

Lemma exit_objects (self : nat) (st : process) :
  objects (fst (__exit__ resolve self st)) = objects st.
Proof.
  unfold __exit__. destruct (olddir (objects st self)); [|reflexivity].
  apply chdir_objects.
Qed.

(** A statement that does not enter [cm] leaves that instance as it is. *)
Lemma exec_frame (cm : nat) :
  forall (s : stmt) (st : process),
    enters cm s = false ->
    objects (fst (exec resolve module_dir s st)) cm = objects st cm.
Proof.
  induction s as [| p | e | a IHa b IHb | cm' body IH]; intros st H; simpl in *.
  - reflexivity.
  - rewrite chdir_objects. reflexivity.
  - reflexivity.
  - apply orb_false_iff in H. destruct H as [Ha Hb].
    specialize (IHa st Ha).
    destruct (exec resolve module_dir a st) as [st1 [e|]]; simpl in *.
    + exact IHa.
    + rewrite (IHb st1 Hb). exact IHa.
  - apply orb_false_iff in H. destruct H as [Hcm Hbody].
    apply Nat.eqb_neq in Hcm.
    pose proof (enter_objects cm' cm st (not_eq_sym Hcm)) as He.
    destruct (__enter__ resolve module_dir cm' st) as [st1 [e|]]; simpl in *.
    + exact He.
    + specialize (IH st1 Hbody).
      destruct (exec resolve module_dir body st1) as [st2 r]; simpl in *.
      pose proof (exit_objects cm' st2) as Hx.
      destruct (__exit__ resolve cm' st2) as [st3 [e|]]; simpl in *;
        rewrite Hx, IH; exact He.
Qed.

(** The with-block puts the working directory back, when its body does
    not enter the same instance again and the directory seen on entry can
    be entered from anywhere. *)
Lemma with_restores (cm : nat) (body : stmt) (st : process) :
  enters cm body = false ->
  (forall d, resolve d (cwd st) = Ok (cwd st)) ->
  cwd (fst (exec resolve module_dir (With cm body) st)) = cwd st.
Proof.
  intros Hbody Hres. simpl.
  pose proof (enter_olddir cm st) as Hold.
  pose proof (enter_failure cm st) as Hfail.
  destruct (__enter__ resolve module_dir cm st) as [st1 [e|]]; simpl in *.
  - apply (Hfail e). reflexivity.
  - pose proof (exec_frame cm body st1 Hbody) as Hframe.
    destruct (exec resolve module_dir body st1) as [st2 r]; simpl in *.
    assert (Hx : __exit__ resolve cm st2 = (set_cwd (cwd st) st2, None)).
    { unfold __exit__. rewrite Hframe, Hold. unfold chdir.
      rewrite Hres. reflexivity. }
    rewrite Hx. reflexivity.
Qed.

End CDContxtFacts.

(** C10, as the code has it: for every with-block over a [CDContxt]
    whose body does not enter the same instance again, the working
    directory after the block is the one observed just before it, whatever
    path was given and whether [__enter__] or the body raised or not,
    provided the directory observed on entry can still be entered. *)
Theorem CDContxt_restores_cwd
    (resolve : string -> string -> result string) (module_dir : string)
    (cm : nat) (body : CDContxt.stmt) (st : CDContxt.process) :
  CDContxt.enters cm body = false ->
  (forall d, resolve d (CDContxt.cwd st) = Ok (CDContxt.cwd st)) ->
  CDContxt.cwd
    (fst (CDContxt.exec resolve module_dir (CDContxt.With cm body) st)) =
  CDContxt.cwd st.
Proof. apply with_restores. Qed.

(** Paths are taken as absolute: [chdir] leads where it is told. *)
Lemma CDContxt_restores_cwd_witness :
  let st := {| CDContxt.cwd := "/home";
               CDContxt.objects := fun _ =>
                 {| CDContxt.path := "/tmp"; CDContxt.olddir := None |} |} in
  let body := CDContxt.Seq (CDContxt.Chdir "/var")
                (CDContxt.RaiseExn (ValueError "stop")) in
  CDContxt.cwd
    (fst (CDContxt.exec (fun _ p => Ok p) "/pkg" (CDContxt.With 0 body) st)) =
  "/home"%string.
Proof.
  intros st body.
  apply (CDContxt_restores_cwd (fun _ p => Ok p) "/pkg" 0 body st).
  - reflexivity.
  - intros d. reflexivity.
Defined.

(** C10 as stated fails when the body enters the same instance again:
    the inner [__enter__] overwrites [olddir], and the outer [__exit__]
    goes to the directory of the instance instead of the one the outer
    block started from. *)
Lemma CDContxt_reentered_loses_cwd :
  let st := {| CDContxt.cwd := "/home";
               CDContxt.objects := fun _ =>
                 {| CDContxt.path := "/tmp"; CDContxt.olddir := None |} |} in
  let block := CDContxt.With 0 (CDContxt.With 0 CDContxt.Pass) in
  CDContxt.exec (fun _ p => Ok p) "/pkg" block st =
    (fst (CDContxt.exec (fun _ p => Ok p) "/pkg" block st), None) /\
  CDContxt.cwd (fst (CDContxt.exec (fun _ p => Ok p) "/pkg" block st)) =
    "/tmp"%string /\
  CDContxt.cwd (fst (CDContxt.exec (fun _ p => Ok p) "/pkg" block st)) <>
    CDContxt.cwd st.
Proof.
  intros st block. repeat split. simpl. discriminate.
Qed.

(** ** The two files are the formatter at their symbol *)

Lemma write_table_replace_plus_minus :
  WriteTable.replace_plus_minus = Formatter.replace_plus_minus Formatter.tex.
Proof. reflexivity. Qed.

Lemma functions_replace_plus_minus :
  Functions.replace_plus_minus = Formatter.replace_plus_minus Formatter.plain.
Proof. reflexivity. Qed.

Lemma write_table_delete_parentheses :
  WriteTable.delete_parentheses = Formatter.delete_parentheses Formatter.tex.
Proof. reflexivity. Qed.

Lemma functions_delete_parentheses :
  Functions.delete_parentheses = Formatter.delete_parentheses Formatter.plain.
Proof. reflexivity. Qed.

Lemma write_table_uarray_branch :
  WriteTable.uarray_branch = Formatter.uarray_branch Formatter.tex.
Proof. reflexivity. Qed.

Lemma functions_uarray_branch :
  Functions.uarray_branch = Formatter.uarray_branch Formatter.plain.
Proof. reflexivity. Qed.

Lemma replace_occurrence_in_context (sym pre post : text) (d1 d2 : ascii) :
  re.is_digit d1 = true ->
  re.is_digit d2 = true ->
  Formatter.ends_with_plus_minus pre = false ->
  Formatter.replace_plus_minus sym (pre ++ d1 :: txt "+/-" ++ d2 :: post) =
  Formatter.replace_plus_minus sym pre
    ++ d1 :: Formatter.spaced sym ++ d2 :: Formatter.replace_plus_minus sym post.
Proof.
  intros H1 H2 He.
  rewrite (replace_before_occurrence sym d1 d2 post H1 (List.length pre) pre
             (le_n _) He).
  rewrite (replace_at_occurrence sym d1 d2 post H1 H2). reflexivity.
Qed.

(** C5, as the code has it: a digit, [+/-] and a digit, where the first
    digit does not itself close an earlier digit-[+/-]-digit, are replaced
    by the two digits with the symbol between them, one space on each
    side: [\pm] in write_table.py, [+-] in functions.py.  The two outputs
    are the same chunks of the input joined by their own spaced symbol. *)
Theorem replace_plus_minus_occurrence (pre post : text) (d1 d2 : ascii) :
  re.is_digit d1 = true ->
  re.is_digit d2 = true ->
  Formatter.ends_with_plus_minus pre = false ->
  let s := pre ++ d1 :: txt "+/-" ++ d2 :: post in
  WriteTable.replace_plus_minus s =
    WriteTable.replace_plus_minus pre
      ++ d1 :: txt " \pm " ++ d2 :: WriteTable.replace_plus_minus post /\
  Functions.replace_plus_minus s =
    Functions.replace_plus_minus pre
      ++ d1 :: txt " +- " ++ d2 :: Functions.replace_plus_minus post /\
  WriteTable.replace_plus_minus s = Formatter.join (txt " \pm ") (Formatter.chunks s) /\
  Functions.replace_plus_minus s = Formatter.join (txt " +- ") (Formatter.chunks s).
Proof.
  intros H1 H2 He s. repeat split.
  - exact (replace_occurrence_in_context Formatter.tex pre post d1 d2 H1 H2 He).
  - exact (replace_occurrence_in_context Formatter.plain pre post d1 d2 H1 H2 He).
  - exact (replace_as_chunks Formatter.tex (List.length s) s (le_n _)).
  - exact (replace_as_chunks Formatter.plain (List.length s) s (le_n _)).
Qed.

Lemma replace_plus_minus_occurrence_witness :
  let s := txt "x=3.14+/-0.07&" in
  WriteTable.replace_plus_minus s =
    WriteTable.replace_plus_minus (txt "x=3.1")
      ++ "4"%char :: txt " \pm " ++ "0"%char :: WriteTable.replace_plus_minus (txt ".07&") /\
  Functions.replace_plus_minus s =
    Functions.replace_plus_minus (txt "x=3.1")
      ++ "4"%char :: txt " +- " ++ "0"%char :: Functions.replace_plus_minus (txt ".07&") /\
  WriteTable.replace_plus_minus s = Formatter.join (txt " \pm ") (Formatter.chunks s) /\
  Functions.replace_plus_minus s = Formatter.join (txt " +- ") (Formatter.chunks s).
Proof.
  apply (replace_plus_minus_occurrence (txt "x=3.1") (txt ".07&") "4" "0").
  - reflexivity.
  - reflexivity.
  - reflexivity.
Defined.

(** C5 as stated fails where two occurrences share a digit: in
    [1+/-2+/-3] the digit 2 is followed by [+/-] and a digit, but it has
    been consumed by the match before it, and the second [+/-] stays. *)
Lemma shared_digit_occurrence_not_replaced :
  let s := txt "1+/-2+/-3" in
  s = txt "1+/-" ++ "2"%char :: txt "+/-" ++ "3"%char :: [] /\
  WriteTable.replace_plus_minus s = txt "1 \pm 2+/-3" /\
  Functions.replace_plus_minus s = txt "1 +- 2+/-3" /\
  WriteTable.uarray_branch s = txt "1 \pm 2+/-3" /\
  Functions.uarray_branch s = txt "1 +- 2+/-3" /\
  WriteTable.replace_plus_minus s <>
    WriteTable.replace_plus_minus (txt "1+/-")
      ++ "2"%char :: txt " \pm " ++ "3"%char :: WriteTable.replace_plus_minus [].
Proof.
  intros s. repeat split. vm_compute. discriminate.
Qed.

Lemma delete_quotes_without_quotes (s : text) :
  forallb (fun c => negb (Ascii.eqb c dquote)) s = true ->
  Formatter.delete_quotes s = s.
Proof.
  unfold Formatter.delete_quotes, str_replace.
  induction s as [|c s IH]; intros Hq; [reflexivity|].
  simpl in Hq. apply andb_prop in Hq. destruct Hq as [Hc Hs].
  simpl. destruct (Ascii.eqb c dquote); [discriminate|].
  simpl. rewrite (IH Hs). reflexivity.
Qed.

(** The regular expressions find exactly the plain shapes. *)
Lemma occurs_inv (p : re.pattern) (s : text) :
  re.occurs p s = true ->
  exists pre t m, s = pre ++ t /\ re.match_here p t = Some m.
Proof.
  induction s as [|c s IH]; cbn [re.occurs].
  - destruct (re.match_here p []) as [m|] eqn:E; [|discriminate].
    intros _. exists [], [], m. split; [reflexivity|exact E].
  - destruct (re.match_here p (c :: s)) as [m|] eqn:E.
    + intros _. exists [], (c :: s), m. split; [reflexivity|exact E].
    + intros H. destruct (IH H) as (pre & t & m & -> & Hm).
      exists (c :: pre), t, m. split; [reflexivity|exact Hm].
Qed.

Lemma occurs_intro (p : re.pattern) (pre t : text) (m : re.matched) :
  re.match_here p t = Some m -> re.occurs p (pre ++ t) = true.
Proof.
  intros Hm. induction pre as [|c pre IH].
  - cbn [app]. destruct t; cbn [re.occurs]; rewrite Hm; reflexivity.
  - cbn [app re.occurs]. rewrite IH.
    destruct (re.match_here p (c :: pre ++ t)); reflexivity.
Qed.

Lemma plus_minus_occurs_iff (s : text) :
  re.occurs plus_minus_pattern s = true <-> digit_plus_minus_digit_in s.
Proof.
  split.
  - intros H. destruct (occurs_inv _ _ H) as (pre & t & m & -> & Hm).
    assert (Hat : Formatter.plus_minus_at t = true)
      by (unfold Formatter.plus_minus_at; rewrite Hm; reflexivity).
    destruct (plus_minus_at_inv t Hat) as (d1 & d2 & rest & -> & H1 & H2).
    exists pre, d1, d2, rest. auto.
  - intros (pre & d1 & d2 & post & H1 & H2 & ->).
    exact (occurs_intro _ pre _ _ (plus_minus_at_digits d1 d2 post H1 H2)).
Qed.

Lemma paren_occurs_iff (sym s : text) :
  re.occurs (Formatter.paren_pattern sym) s = true <->
  parenthesised_pair_in sym s.
Proof.
  split.
  - intros H. destruct (occurs_inv _ _ H) as (pre & t & m & -> & Hm).
    destruct (paren_pattern_inv sym t m Hm) as (A & B & rest & HA & HB & -> & _).
    exists pre, A, B, rest. auto.
  - intros (pre & A & B & post & HA & HB & ->).
    exact (occurs_intro _ pre _ _ (paren_pattern_matches sym A B post HA HB)).
Qed.

Lemma not_occurs (p : re.pattern) (s : text) (P : Prop) :
  (re.occurs p s = true <-> P) -> ~ P -> re.occurs p s = false.
Proof.
  intros Hiff Hn. destruct (re.occurs p s); [|reflexivity].
  exfalso. apply Hn, Hiff. reflexivity.
Qed.

Lemma delete_quotes_filter (s : text) :
  Formatter.delete_quotes s = without_quotes s.
Proof.
  unfold Formatter.delete_quotes, str_replace, without_quotes.
  induction s as [|c s IH]; [reflexivity|].
  cbn [flat_map filter]. destruct (Ascii.eqb c dquote); cbn [negb app].
  - exact IH.
  - rewrite IH. reflexivity.
Qed.

Lemma formatter_pass_through (sym s : text) :
  ~ digit_plus_minus_digit_in (without_quotes s) ->
  ~ parenthesised_pair_in sym (without_quotes s) ->
  Formatter.uarray_branch sym s = without_quotes s.
Proof.
  intros Hpm Hp.
  unfold Formatter.uarray_branch, Formatter.replace_plus_minus,
    Formatter.delete_parentheses.
  rewrite delete_quotes_filter.
  rewrite (sub_without_occurrence plus_minus_pattern _ _
             (not_occurs _ _ _ (plus_minus_occurs_iff _) Hpm)).
  exact (sub_without_occurrence _ _ _
           (not_occurs _ _ _ (paren_occurs_iff sym _) Hp)).
Qed.

(** C6, as the code has it: when the text without its double quotes
    holds no digit, [+/-], digit in a row and no parenthesised pair of
    numbers before an [e], the branch of either file returns the text
    without its double quotes, so unchanged when it has none; signs
    elsewhere are not touched.  The branch is a total function: it never
    raises. *)
Theorem uarray_branch_pass_through (v : variant) (s : text) :
  ~ digit_plus_minus_digit_in (without_quotes s) ->
  ~ parenthesised_pair_in (symbol v) (without_quotes s) ->
  uarray_branch v s = without_quotes s /\
  (forallb (fun c => negb (Ascii.eqb c dquote)) s = true ->
   uarray_branch v s = s).
Proof.
  intros Hpm Hp.
  assert (H : uarray_branch v s = without_quotes s).
  { destruct v; cbn [uarray_branch symbol] in *.
    - rewrite write_table_uarray_branch.
      exact (formatter_pass_through Formatter.tex s Hpm Hp).
    - rewrite functions_uarray_branch.
      exact (formatter_pass_through Formatter.plain s Hpm Hp). }
  split; [exact H|].
  intros Hq. rewrite H, <- delete_quotes_filter.
  exact (delete_quotes_without_quotes s Hq).
Qed.

Lemma uarray_branch_pass_through_witness :
  let s := txt "-1.5e+03&4-2+1&(a+/-b)&(1 - 2)e3\\" in
  uarray_branch Plain s = without_quotes s /\ uarray_branch Plain s = s.
Proof.
  intros s.
  destruct (uarray_branch_pass_through Plain s) as [H1 H2].
  - intros H. apply plus_minus_occurs_iff in H. vm_compute in H. discriminate.
  - intros H. apply paren_occurs_iff in H. vm_compute in H. discriminate.
  - split; [exact H1|apply H2; reflexivity].
Defined.

(** C6 as stated fails on double quotes.  A quoted cell with neither
    shape in it loses its quotes; and quotes standing inside [+/-] hide an
    occurrence that the branch, having deleted them, then replaces. *)
Lemma uarray_branch_alters_quoted_text :
  let quoted := dquote :: txt "42" ++ [dquote] in
  let hidden := "1"%char :: dquote :: txt "+/-2" in
  (~ digit_plus_minus_digit_in quoted /\
   ~ parenthesised_pair_in Formatter.tex quoted /\
   ~ parenthesised_pair_in Formatter.plain quoted /\
   WriteTable.uarray_branch quoted = txt "42" /\
   WriteTable.uarray_branch quoted <> quoted /\
   Functions.uarray_branch quoted <> quoted) /\
  (~ digit_plus_minus_digit_in hidden /\
   ~ parenthesised_pair_in Formatter.tex hidden /\
   ~ parenthesised_pair_in Formatter.plain hidden /\
   WriteTable.uarray_branch hidden = txt "1 \pm 2" /\
   Functions.uarray_branch hidden = txt "1 +- 2").
Proof.
  intros quoted hidden.
  assert (Hpm : forall s, re.occurs plus_minus_pattern s = false ->
                          ~ digit_plus_minus_digit_in s).
  { intros s H Hin. apply plus_minus_occurs_iff in Hin.
    rewrite H in Hin. discriminate. }
  assert (Hp : forall sym s, re.occurs (Formatter.paren_pattern sym) s = false ->
                             ~ parenthesised_pair_in sym s).
  { intros sym s H Hin. apply paren_occurs_iff in Hin.
    rewrite H in Hin. discriminate. }
  split.
  - split; [apply Hpm; reflexivity|].
    split; [apply Hp; reflexivity|].
    split; [apply Hp; reflexivity|].
    split; [reflexivity|].
    split; vm_compute; discriminate.
  - split; [apply Hpm; reflexivity|].
    split; [apply Hp; reflexivity|].
    split; [apply Hp; reflexivity|].
    split; reflexivity.
Qed.

(** ** Parentheses and idempotence *)

Section BranchFacts.

Import Formatter.

Variable sym : text.
Hypothesis sym_fine : sym_ok sym = true.

Lemma delete_quotes_no_quote (s : text) :
  forallb (fun c => negb (Ascii.eqb c dquote)) (Formatter.delete_quotes s) = true.
Proof.
  unfold Formatter.delete_quotes, str_replace.
  induction s as [|c s IH]; [reflexivity|].
  cbn [flat_map]. destruct (Ascii.eqb c dquote) eqn:E; [exact IH|].
  cbn [app forallb]. rewrite E. exact IH.
Qed.

Lemma sym_no_quote :
  forall x : text,
    sym_ok x = true -> forallb (fun c => negb (Ascii.eqb c dquote)) x = true.
Proof.
  induction x as [|c x IH]; intros H; [reflexivity|].
  cbn [sym_ok forallb] in H |- *. apply andb_prop in H. destruct H as [Hc Hx].
  destruct (sym_char_ok_inv c Hc) as (_ & _ & _ & _ & _ & Hq & _).
  rewrite Hq. exact (IH Hx).
Qed.

Lemma spaced_no_quote :
  forallb (fun c => negb (Ascii.eqb c dquote)) (spaced sym) = true.
Proof.
  unfold spaced. cbn [forallb]. rewrite forallb_app, (sym_no_quote sym sym_fine).
  reflexivity.
Qed.

(** The output of the branch has no double quote. *)
Lemma uarray_branch_no_quote (s : text) :
  forallb (fun c => negb (Ascii.eqb c dquote)) (Formatter.uarray_branch sym s) = true.
Proof.
  unfold Formatter.uarray_branch, Formatter.delete_parentheses,
    Formatter.replace_plus_minus, re.sub.
  apply sub_from_chars.
  - unfold paren_template, re.template_chars. cbn [forallb].
    rewrite spaced_no_quote. reflexivity.
  - apply sub_from_chars.
    + unfold plus_minus_template, re.template_chars. cbn [forallb].
      rewrite spaced_no_quote. reflexivity.
    + apply delete_quotes_no_quote.
Qed.

(** Run on its own output, the branch changes nothing as soon as that
    output has no digit-[+/-]-digit left. *)
Lemma formatter_idempotent (s : text) :
  re.occurs plus_minus_pattern (Formatter.uarray_branch sym s) = false ->
  Formatter.uarray_branch sym (Formatter.uarray_branch sym s) =
  Formatter.uarray_branch sym s.
Proof.
  intros Hpm. set (out := Formatter.uarray_branch sym s) in *.
  unfold Formatter.uarray_branch at 1.
  rewrite (delete_quotes_without_quotes out (uarray_branch_no_quote s)).
  unfold Formatter.replace_plus_minus.
  rewrite (sub_without_occurrence _ _ _ Hpm).
  unfold out, Formatter.uarray_branch.
  apply (delete_parentheses_idempotent sym sym_fine _ _ (le_n _)).
Qed.

(** A parenthesised pair of numbers before [e], anywhere in the text,
    followed by text without an opening parenthesis. *)
Lemma formatter_pair (pre A B expo post : text) :
  is_number A = true -> is_number B = true ->
  forallb (fun c => negb (Ascii.eqb "(" c)) expo = true ->
  Formatter.delete_parentheses sym
    (pre ++ "("%char :: A ++ spaced sym ++ B ++ txt ")e" ++ expo ++ post) =
  Formatter.delete_parentheses sym pre
    ++ A ++ spaced sym ++ B ++ txt " e" ++ expo
    ++ Formatter.delete_parentheses sym post.
Proof.
  intros HA HB He.
  replace ("("%char :: A ++ spaced sym ++ B ++ txt ")e" ++ expo ++ post)
    with (paren_text sym A B ++ (expo ++ post))
    by (unfold paren_text; cbn [app]; rewrite <- !app_assoc; reflexivity).
  rewrite (delete_before_pair sym sym_fine A B (expo ++ post) HA HB
             (List.length pre) pre (le_n _)).
  rewrite (delete_at_pair sym A B (expo ++ post) HA HB).
  rewrite (delete_skips sym post expo He).
  unfold pair_text. rewrite <- !app_assoc. reflexivity.
Qed.

(** *** A whole cell through the branch *)

Lemma forallb_weaken (P Q : ascii -> bool) (l : text) :
  (forall c, P c = true -> Q c = true) ->
  forallb P l = true -> forallb Q l = true.
Proof.
  intros HPQ. induction l as [|c l IH]; [reflexivity|].
  cbn [forallb]. intros H. apply andb_prop in H. destruct H as [Hc Hl].
  rewrite (HPQ c Hc), (IH Hl). reflexivity.
Qed.

(** Without a slash there is no [+/-]. *)
Lemma no_slash_no_plus_minus :
  forall s : text,
    forallb (fun c => negb (Ascii.eqb "/" c)) s = true ->
    re.occurs plus_minus_pattern s = false.
Proof.
  induction s as [|c s IH]; intros H; [reflexivity|].
  cbn [forallb] in H. apply andb_prop in H. destruct H as [_ Hs].
  cbn [re.occurs]. rewrite plus_minus_match.
  destruct s as [|p [|sl [|mi [|d2 r]]]]; try exact (IH Hs).
  assert (Hsl : Ascii.eqb "/" sl = false).
  { cbn [forallb] in Hs. apply andb_prop in Hs. destruct Hs as [_ Hs].
    apply andb_prop in Hs. destruct Hs as [Hsl _].
    apply negb_true_iff in Hsl. exact Hsl. }
  rewrite Hsl, !andb_false_r. cbn [andb]. exact (IH Hs).
Qed.

Lemma numeric_chars (P : ascii -> bool) (A : text) :
  (forall c, re.is_digit c = true -> P c = true) -> P "."%char = true ->
  numeric A = true -> forallb P A = true.
Proof.
  intros Hd Hdot. unfold numeric. destruct A as [|d A]; [discriminate|].
  intros H. apply andb_prop in H. destruct H as [H1 HA].
  cbn [forallb]. rewrite (Hd d H1). cbn [andb].
  apply (forallb_weaken (fun x => re.is_digit x || Ascii.eqb "." x) P A);
    [|exact HA].
  intros c Hc. apply orb_prop in Hc. destruct Hc as [Hc | Hc].
  - exact (Hd c Hc).
  - apply Ascii.eqb_eq in Hc. subst c. exact Hdot.
Qed.

(** The characters of a parenthesised pair. *)
Lemma paren_text_chars (P : ascii -> bool) (A B : text) :
  (forall c, re.is_digit c = true -> P c = true) ->
  P "."%char = true -> P " "%char = true -> P "("%char = true ->
  P ")"%char = true -> P "e"%char = true -> forallb P sym = true ->
  is_number A = true -> is_number B = true ->
  forallb P (paren_text sym A B) = true.
Proof.
  intros Hd Hdot Hsp Hop Hcl He Hsym HA HB. unfold paren_text, spaced.
  cbn [forallb]. rewrite Hop. cbn [andb].
  rewrite !forallb_app. cbn [forallb app txt list_ascii_of_string].
  rewrite (numeric_chars P A Hd Hdot (is_number_numeric A HA)).
  rewrite (numeric_chars P B Hd Hdot (is_number_numeric B HB)).
  rewrite forallb_app, Hsym, Hcl, He. cbn [forallb]. rewrite Hsp. reflexivity.
Qed.

Lemma sym_no_slash :
  forall x : text,
    sym_ok x = true -> forallb (fun c => negb (Ascii.eqb "/" c)) x = true.
Proof.
  induction x as [|c x IH]; intros H; [reflexivity|].
  cbn [sym_ok forallb] in H |- *. apply andb_prop in H. destruct H as [Hc Hx].
  destruct (sym_char_ok_inv c Hc) as (_ & _ & _ & _ & _ & _ & Hs).
  rewrite Ascii.eqb_sym, Hs. exact (IH Hx).
Qed.

Lemma digit_not_quote (c : ascii) :
  re.is_digit c = true -> negb (Ascii.eqb c dquote) = true.
Proof.
  intros H. destruct (Ascii.eqb c dquote) eqn:E; [|reflexivity].
  apply Ascii.eqb_eq in E. subst c. discriminate H.
Qed.

Lemma delete_outer_quotes (cell : text) :
  forallb (fun c => negb (Ascii.eqb c dquote)) cell = true ->
  Formatter.delete_quotes (dquote :: cell ++ [dquote]) = cell.
Proof.
  intros H. pose proof (delete_quotes_without_quotes cell H) as Hcell.
  unfold Formatter.delete_quotes, str_replace in *.
  cbn [flat_map]. rewrite Ascii.eqb_refl, flat_map_app, Hcell.
  cbn [flat_map app]. rewrite Ascii.eqb_refl, app_nil_r. reflexivity.
Qed.

(** A cell [(A sym B)e...], in double quotes or not, leaves the branch
    as [A sym B e...]. *)
Lemma formatter_cell (A B expo : text) :
  is_number A = true -> is_number B = true ->
  forallb plain_char expo = true ->
  Formatter.uarray_branch sym (dquote :: (paren_text sym A B ++ expo) ++ [dquote]) =
    pair_text sym A B ++ expo /\
  Formatter.uarray_branch sym (paren_text sym A B ++ expo) =
    pair_text sym A B ++ expo.
Proof.
  intros HA HB He.
  assert (Hparen : forallb (fun c => negb (Ascii.eqb "(" c)) expo = true).
  { apply (forallb_weaken plain_char _ expo); [|exact He].
    unfold plain_char. intros c Hc.
    apply andb_prop in Hc. destruct Hc as [Hc _].
    apply andb_prop in Hc. destruct Hc as [Hc _].
    rewrite Ascii.eqb_sym. exact Hc. }
  assert (Hslash : forallb (fun c => negb (Ascii.eqb "/" c))
                     (paren_text sym A B ++ expo) = true).
  { rewrite forallb_app. apply andb_true_intro. split.
    - apply paren_text_chars; try reflexivity; try assumption.
      + intros c Hc. destruct (digit_not_sign c Hc) as (_ & Hs & _).
        rewrite Hs. reflexivity.
      + exact (sym_no_slash sym sym_fine).
    - apply (forallb_weaken plain_char _ expo); [|exact He].
      unfold plain_char. intros c Hc.
      apply andb_prop in Hc. destruct Hc as [Hc _].
      apply andb_prop in Hc. destruct Hc as [_ Hc].
      rewrite Ascii.eqb_sym. exact Hc. }
  assert (Hquote : forallb (fun c => negb (Ascii.eqb c dquote))
                     (paren_text sym A B ++ expo) = true).
  { rewrite forallb_app. apply andb_true_intro. split.
    - apply paren_text_chars; try reflexivity; try assumption.
      + exact digit_not_quote.
      + exact (sym_no_quote sym sym_fine).
    - apply (forallb_weaken plain_char _ expo); [|exact He].
      unfold plain_char. intros c Hc.
      apply andb_prop in Hc. destruct Hc as [_ Hc]. exact Hc. }
  assert (Hcell : Formatter.delete_parentheses sym
                    (Formatter.replace_plus_minus sym (paren_text sym A B ++ expo)) =
                  pair_text sym A B ++ expo).
  { unfold Formatter.replace_plus_minus.
    rewrite (sub_without_occurrence _ _ _ (no_slash_no_plus_minus _ Hslash)).
    rewrite (delete_at_pair sym A B expo HA HB).
    pose proof (delete_skips sym [] expo Hparen) as Hskip.
    rewrite app_nil_r in Hskip. rewrite Hskip.
    change (Formatter.delete_parentheses sym []) with (@nil ascii).
    rewrite app_nil_r. reflexivity. }
  split.
  - unfold Formatter.uarray_branch.
    rewrite (delete_outer_quotes _ Hquote). exact Hcell.
  - unfold Formatter.uarray_branch.
    rewrite (delete_quotes_without_quotes _ Hquote). exact Hcell.
Qed.

End BranchFacts.

Lemma plain_no_paren (expo : text) :
  forallb Formatter.plain_char expo = true ->
  forallb (fun c => negb (Ascii.eqb "(" c)) expo = true.
Proof.
  apply forallb_weaken. unfold Formatter.plain_char. intros c Hc.
  apply andb_prop in Hc. destruct Hc as [Hc _].
  apply andb_prop in Hc. destruct Hc as [Hc _].
  rewrite Ascii.eqb_sym. exact Hc.
Qed.

Lemma formatter_pair_in_context (sym : text) (pre A B expo post : text) :
  Formatter.sym_ok sym = true ->
  Formatter.is_number A = true -> Formatter.is_number B = true ->
  forallb Formatter.plain_char expo = true ->
  Formatter.delete_parentheses sym
    (pre ++ Formatter.paren_text sym A B ++ expo ++ post) =
  Formatter.delete_parentheses sym pre
    ++ Formatter.pair_text sym A B ++ expo
    ++ Formatter.delete_parentheses sym post.
Proof.
  intros Hsym HA HB He.
  pose proof (formatter_pair sym Hsym pre A B expo post HA HB
                (plain_no_paren expo He)) as H.
  unfold Formatter.paren_text, Formatter.pair_text.
  cbn [app]. rewrite <- !app_assoc. exact H.
Qed.

(** X24: a cell [(A sym B)e...] with [A] and [B] unsigned numbers
    (digits, an optional dot, digits), in double quotes or not, leaves
    the branch as [A sym B e...], the exponent behind [e] as it stands;
    and wherever such a pair stands in a longer text, the second
    substitution rewrites it so and scans the text around it as if the
    pair were not there.  The spec's example is an instance. *)
Theorem delete_parentheses_pair
    (v : variant) (pre A B expo post : text) :
  Formatter.is_number A = true ->
  Formatter.is_number B = true ->
  forallb Formatter.plain_char expo = true ->
  uarray_branch v
    (dquote :: (Formatter.paren_text (symbol v) A B ++ expo) ++ [dquote]) =
    Formatter.pair_text (symbol v) A B ++ expo /\
  uarray_branch v (Formatter.paren_text (symbol v) A B ++ expo) =
    Formatter.pair_text (symbol v) A B ++ expo /\
  delete_parentheses v
    (pre ++ Formatter.paren_text (symbol v) A B ++ expo ++ post) =
    delete_parentheses v pre
      ++ Formatter.pair_text (symbol v) A B ++ expo
      ++ delete_parentheses v post /\
  WriteTable.uarray_branch (dquote :: txt "(1.23 \pm 0.04)e+02" ++ [dquote]) =
    txt "1.23 \pm 0.04 e+02".
Proof.
  intros HA HB He. destruct v; cbn [symbol uarray_branch delete_parentheses].
  - destruct (formatter_cell Formatter.tex eq_refl A B expo HA HB He) as [H1 H2].
    repeat split; try assumption.
    exact (formatter_pair_in_context Formatter.tex pre A B expo post
             eq_refl HA HB He).
  - destruct (formatter_cell Formatter.plain eq_refl A B expo HA HB He) as [H1 H2].
    repeat split; try assumption.
    exact (formatter_pair_in_context Formatter.plain pre A B expo post
             eq_refl HA HB He).
Qed.

Lemma delete_parentheses_pair_witness :
  uarray_branch Plain
    (dquote :: (Formatter.paren_text (symbol Plain) (txt "1.23") (txt "0.04")
                  ++ txt "+02") ++ [dquote]) =
    Formatter.pair_text (symbol Plain) (txt "1.23") (txt "0.04") ++ txt "+02" /\
  uarray_branch Plain
    (Formatter.paren_text (symbol Plain) (txt "1.23") (txt "0.04") ++ txt "+02") =
    Formatter.pair_text (symbol Plain) (txt "1.23") (txt "0.04") ++ txt "+02" /\
  delete_parentheses Plain
    (txt "x&" ++ Formatter.paren_text (symbol Plain) (txt "1.23") (txt "0.04")
       ++ txt "+02" ++ txt "&(7 +- 1)e-05\\") =
    delete_parentheses Plain (txt "x&")
      ++ Formatter.pair_text (symbol Plain) (txt "1.23") (txt "0.04") ++ txt "+02"
      ++ delete_parentheses Plain (txt "&(7 +- 1)e-05\\") /\
  WriteTable.uarray_branch (dquote :: txt "(1.23 \pm 0.04)e+02" ++ [dquote]) =
    txt "1.23 \pm 0.04 e+02".
Proof.
  apply (delete_parentheses_pair Plain (txt "x&") (txt "1.23") (txt "0.04")
           (txt "+02") (txt "&(7 +- 1)e-05\\")).
  - reflexivity.
  - reflexivity.
  - reflexivity.
Defined.

(** C4, a defect of the code: the second substitution is there to
    delete the parentheses of numbers with uncertainties and exponents,
    as its comment says, but its pattern wants a digit right behind the
    opening parenthesis and so misses every negative value.  A cell
    [(-1.23+/-0.04)e+02] keeps its parentheses in both files, while the
    cell beside it with the positive value loses them. *)
Theorem signed_pair_keeps_parentheses :
  WriteTable.uarray_branch (dquote :: txt "(-1.23 \pm 0.04)e+02" ++ [dquote]) =
    txt "(-1.23 \pm 0.04)e+02" /\
  WriteTable.uarray_branch (dquote :: txt "(-1.23+/-0.04)e+02" ++ [dquote]) =
    txt "(-1.23 \pm 0.04)e+02" /\
  Functions.uarray_branch (dquote :: txt "(-1.23+/-0.04)e+02" ++ [dquote]) =
    txt "(-1.23 +- 0.04)e+02" /\
  WriteTable.uarray_branch (dquote :: txt "(-1.23 \pm 0.04)e+02" ++ [dquote]) <>
    txt "-1.23 \pm 0.04 e+02" /\
  WriteTable.uarray_branch (txt "(1.23+/-0.04)e+04&(-1.23+/-0.04)e+04\\") =
    txt "1.23 \pm 0.04 e+04&(-1.23 \pm 0.04)e+04\\" /\
  Functions.uarray_branch (txt "(1.23+/-0.04)e+04&(-1.23+/-0.04)e+04\\") =
    txt "1.23 +- 0.04 e+04&(-1.23 +- 0.04)e+04\\".
Proof.
  split; [reflexivity|]. split; [reflexivity|]. split; [reflexivity|].
  split; [vm_compute; discriminate|]. split; reflexivity.
Qed.

(** C7, as the code has it: run on its own output, the branch changes
    nothing, provided that output has no digit-[+/-]-digit left. *)
Theorem uarray_branch_idempotent (v : variant) (s : text) :
  re.occurs plus_minus_pattern (uarray_branch v s) = false ->
  uarray_branch v (uarray_branch v s) = uarray_branch v s.
Proof.
  destruct v.
  - exact (formatter_idempotent Formatter.tex eq_refl s).
  - exact (formatter_idempotent Formatter.plain eq_refl s).
Qed.

Lemma uarray_branch_idempotent_witness :
  let s := dquote :: txt "(1.23+/-0.04)e+02" ++ dquote :: txt "&3.14+/-0.07\\" in
  uarray_branch Tex (uarray_branch Tex s) = uarray_branch Tex s.
Proof.
  intros s. apply (uarray_branch_idempotent Tex s). reflexivity.
Defined.

(** C7 as stated fails where two occurrences of [+/-] share a digit: the
    first run leaves the second occurrence, the second run replaces it. *)
Lemma uarray_branch_not_idempotent :
  let s := txt "1+/-2+/-3" in
  WriteTable.uarray_branch s = txt "1 \pm 2+/-3" /\
  WriteTable.uarray_branch (WriteTable.uarray_branch s) = txt "1 \pm 2 \pm 3" /\
  WriteTable.uarray_branch (WriteTable.uarray_branch s) <>
    WriteTable.uarray_branch s /\
  Functions.uarray_branch (Functions.uarray_branch s) <>
    Functions.uarray_branch s.
Proof.
  intros s. repeat split; vm_compute; discriminate.
Qed.

(** ** More on Student factors *)

Section StudentMoreFacts.

Local Open Scope Q_scope.

(** Where [__init__] succeeds, its result is the entry of the column of
    [sigma] at the length of the series less two. *)
Lemma Student_init_inv (series : list Q) (sigma : Z) (t : Q) :
  Student.__init__ series sigma = Ok t ->
  exists v,
    Student.column (Student.str sigma) (Student.columns Student.t_df) = Some v /\
    (2 <= List.length series)%nat /\
    nth_error v (List.length series - 2) = Some t.
Proof.
  unfold Student.__init__.
  destruct (negb (existsb (Z.eqb sigma) [1; 2; 3]%Z)); [discriminate|].
  unfold Student.loc. rewrite position_in_index.
  destruct (Nat.leb_spec 2 (List.length series)) as [Hge|Hlt]; [|discriminate].
  destruct (Nat.ltb_spec (List.length series) 51) as [Hle|Hgt]; [|discriminate].
  cbn [andb].
  destruct (Student.column (Student.str sigma) (Student.columns Student.t_df))
    as [v|]; [|discriminate].
  destruct (nth_error v (List.length series - 2)) as [t'|] eqn:E; [|discriminate].
  intros H. injection H as <-. exists v. repeat split; assumption.
Qed.

Lemma column_cases (label : string) (v : list Q) :
  Student.column label (Student.columns Student.t_df) = Some v ->
  v = Student.t_df_1 \/ v = Student.t_df_2 \/ v = Student.t_df_3.
Proof.
  cbn [Student.column Student.columns Student.t_df].
  destruct (String.eqb "1" label); [intros H; injection H as <-; auto|].
  destruct (String.eqb "2" label); [intros H; injection H as <-; auto|].
  destruct (String.eqb "3" label); [intros H; injection H as <-; auto|].
  discriminate.
Qed.

Lemma forallb_nth_error (P : Q -> bool) (l : list Q) (i : nat) (x : Q) :
  forallb P l = true -> nth_error l i = Some x -> P x = true.
Proof.
  intros Hall Hnth. apply nth_error_In in Hnth.
  rewrite forallb_forall in Hall. exact (Hall x Hnth).
Qed.

Lemma nonincreasing_nth (l : list Q) :
  StudentObject.nonincreasing l = true ->
  forall (i j : nat) (a b : Q),
    (i <= j)%nat -> nth_error l i = Some a -> nth_error l j = Some b -> b <= a.
Proof.
  induction l as [|x l IH]; intros Hs i j a b Hij Ha Hb.
  - destruct i; discriminate.
  - assert (Htail : StudentObject.nonincreasing l = true).
    { cbn [StudentObject.nonincreasing] in Hs. destruct l as [|y l]; [reflexivity|].
      apply andb_prop in Hs. apply Hs. }
    assert (Hhead : forall k c, nth_error l k = Some c -> c <= x).
    { clear i j a b Hij Ha Hb. intros k. revert x Hs IH Htail.
      induction k as [|k IHk]; intros x Hs IH Htail c Hc.
      - destruct l as [|y l]; [discriminate|]. cbn in Hc. injection Hc as <-.
        cbn [StudentObject.nonincreasing] in Hs. apply andb_prop in Hs.
        apply Qle_bool_iff. apply Hs.
      - destruct l as [|y l]; [discriminate|].
        cbn [StudentObject.nonincreasing] in Hs. apply andb_prop in Hs.
        destruct Hs as [Hyx _]. apply Qle_bool_iff in Hyx.
        apply Qle_trans with y; [|exact Hyx].
        apply (IH Htail 0%nat (S k) y c); [lia | reflexivity | exact Hc]. }
    destruct i as [|i].
    + cbn in Ha. injection Ha as <-. destruct j as [|j].
      * cbn in Hb. injection Hb as <-. apply Qle_refl.
      * cbn in Hb. exact (Hhead j b Hb).
    + destruct j as [|j]; [lia|]. cbn in Ha, Hb.
      apply (IH Htail i j a b); [lia | exact Ha | exact Hb].
Qed.

Lemma pointwise_below_nth :
  forall (l1 l2 : list Q) (i : nat) (a b : Q),
    StudentObject.pointwise_below l1 l2 = true ->
    nth_error l1 i = Some a -> nth_error l2 i = Some b -> a < b.
Proof.
  induction l1 as [|x l1 IH]; intros l2 i a b H Ha Hb.
  - destruct i; discriminate.
  - destruct l2 as [|y l2]; [destruct i; discriminate|].
    cbn [StudentObject.pointwise_below] in H. apply andb_prop in H.
    destruct H as [Hxy Hrest]. destruct i as [|i].
    + cbn in Ha, Hb. injection Ha as <-. injection Hb as <-.
      apply Qnot_le_lt. intros Hle. apply Qle_bool_iff in Hle.
      rewrite Hle in Hxy. discriminate.
    + cbn in Ha, Hb. exact (IH l2 i a b Hrest Ha Hb).
Qed.

Lemma factor_bounds (series : list Q) (sigma : Z) (t : Q) :
  Student.__init__ series sigma = Ok t -> 1 < t /\ t <= 235.8.
Proof.
  intros H. destruct (Student_init_inv series sigma t H) as (v & Hcol & _ & Hnth).
  assert (Hall : forallb (fun q => negb (Qle_bool q 1) && Qle_bool q 235.8) v = true)
    by (destruct (column_cases _ v Hcol) as [-> | [-> | ->]]; vm_compute; reflexivity).
  pose proof (forallb_nth_error _ v _ t Hall Hnth) as Ht. cbv beta in Ht.
  apply andb_prop in Ht. destruct Ht as [Hlo Hhi]. split.
  - apply Qnot_le_lt. intros Hle. apply Qle_bool_iff in Hle.
    rewrite Hle in Hlo. discriminate.
  - apply Qle_bool_iff. exact Hhi.
Qed.

End StudentMoreFacts.

(** X1: every factor [Student.__init__] hands out is strictly greater
    than 1 (and at most 235.8). *)
Theorem Student_factor_exceeds_one (series : list Q) (sigma : Z) (t : Q) :
  Student.__init__ series sigma = Ok t ->
  (1 < t /\ t <= 235.8)%Q.
Proof. apply factor_bounds. Qed.

Lemma Student_factor_exceeds_one_witness :
  (1 < 4.53 /\ 4.53 <= 235.8)%Q.
Proof.
  apply (Student_factor_exceeds_one [1; 2; 3]%Q 2 4.53%Q). reflexivity.
Defined.

(** X2: for one sigma, a longer series never gets a larger factor. *)
Theorem Student_factor_shrinks_with_length
    (series1 series2 : list Q) (sigma : Z) (t1 t2 : Q) :
  Student.__init__ series1 sigma = Ok t1 ->
  Student.__init__ series2 sigma = Ok t2 ->
  (List.length series1 <= List.length series2)%nat ->
  (t2 <= t1)%Q.
Proof.
  intros H1 H2 Hlen.
  destruct (Student_init_inv series1 sigma t1 H1) as (v & Hcol & Hge & Hn1).
  destruct (Student_init_inv series2 sigma t2 H2) as (v' & Hcol' & _ & Hn2).
  rewrite Hcol in Hcol'. injection Hcol' as <-.
  assert (Hs : StudentObject.nonincreasing v = true)
    by (destruct (column_cases _ v Hcol) as [-> | [-> | ->]]; vm_compute; reflexivity).
  apply (nonincreasing_nth v Hs (List.length series1 - 2)
           (List.length series2 - 2) t1 t2); [lia | exact Hn1 | exact Hn2].
Qed.

Lemma Student_factor_shrinks_with_length_witness : (1.32 <= 1.84)%Q.
Proof.
  apply (Student_factor_shrinks_with_length [1; 2]%Q [1; 2; 3]%Q 1 1.84%Q 1.32%Q).
  - reflexivity.
  - reflexivity.
  - simpl. lia.
Defined.

(** X3: for one series, the factor grows strictly with sigma. *)
Theorem Student_factor_grows_with_sigma (series : list Q) (t1 t2 t3 : Q) :
  Student.__init__ series 1 = Ok t1 ->
  Student.__init__ series 2 = Ok t2 ->
  Student.__init__ series 3 = Ok t3 ->
  (t1 < t2 /\ t2 < t3)%Q.
Proof.
  intros H1 H2 H3.
  destruct (Student_init_inv series 1 t1 H1) as (v1 & Hc1 & _ & Hn1).
  destruct (Student_init_inv series 2 t2 H2) as (v2 & Hc2 & _ & Hn2).
  destruct (Student_init_inv series 3 t3 H3) as (v3 & Hc3 & _ & Hn3).
  cbn in Hc1, Hc2, Hc3.
  injection Hc1 as <-. injection Hc2 as <-. injection Hc3 as <-.
  split.
  - apply (pointwise_below_nth Student.t_df_1 Student.t_df_2
             (List.length series - 2) t1 t2); [vm_compute; reflexivity | assumption | assumption].
  - apply (pointwise_below_nth Student.t_df_2 Student.t_df_3
             (List.length series - 2) t2 t3); [vm_compute; reflexivity | assumption | assumption].
Qed.

Lemma Student_factor_grows_with_sigma_witness :
  (1.32 < 4.53 /\ 4.53 < 19.21)%Q.
Proof.
  apply (Student_factor_grows_with_sigma [1; 2; 3]%Q 1.32%Q 4.53%Q 19.21%Q);
    reflexivity.
Defined.



(** ** More on the directory context manager *)

Section CDContxtMoreFacts.

Import CDContxt.

Variable resolve : string -> string -> result string.
Variable module_dir : string.

Lemma enter_unfold (self : nat) (st : process) :
  __enter__ resolve module_dir self st =
  chdir resolve (CDContxtMore.target module_dir (objects st self))
        (set_olddir self (cwd st) st).
Proof.
  unfold __enter__, cd, CDContxtMore.target, getcwd. cbn [objects set_olddir path].
  rewrite Nat.eqb_refl. cbn [path]. destruct (negb _); reflexivity.
Qed.

Lemma scoped_keeps_cwd :
  forall (s : stmt) (st : process),
    CDContxtMore.scoped s = true ->
    (forall d, resolve d (cwd st) = Ok (cwd st)) ->
    cwd (fst (exec resolve module_dir s st)) = cwd st.
Proof.
  induction s as [| p | e | a IHa b IHb | cm body _]; intros st Hs Hres.
  - reflexivity.
  - discriminate Hs.
  - reflexivity.
  - cbn [CDContxtMore.scoped] in Hs. apply andb_prop in Hs. destruct Hs as [Ha Hb].
    cbn [exec]. specialize (IHa st Ha Hres).
    destruct (exec resolve module_dir a st) as [st1 [e|]]; cbn [fst] in *.
    + exact IHa.
    + rewrite (IHb st1 Hb); [exact IHa|].
      intros d. rewrite IHa. apply Hres.
  - cbn [CDContxtMore.scoped] in Hs. apply negb_true_iff in Hs.
    exact (with_restores resolve module_dir cm body st Hs Hres).
Qed.

Lemma with_enter_fails (cm : nat) (body : stmt) (st : process) (e : exn) :
  resolve (cwd st) (CDContxtMore.target module_dir (objects st cm)) = Raise e ->
  exec resolve module_dir (With cm body) st =
  (set_olddir cm (cwd st) st, Some e).
Proof.
  intros H. cbn [exec]. rewrite enter_unfold. unfold chdir.
  cbn [cwd set_olddir]. rewrite H. reflexivity.
Qed.

Lemma with_enter_succeeds (cm : nat) (body : stmt) (st : process) (d : string) :
  enters cm body = false ->
  (forall c, resolve c (cwd st) = Ok (cwd st)) ->
  resolve (cwd st) (CDContxtMore.target module_dir (objects st cm)) = Ok d ->
  let inside := set_cwd d (set_olddir cm (cwd st) st) in
  exec resolve module_dir (With cm body) st =
  (set_cwd (cwd st) (fst (exec resolve module_dir body inside)),
   snd (exec resolve module_dir body inside)).
Proof.
  intros Hbody Hres Hd inside. cbn [exec]. rewrite enter_unfold. unfold chdir at 1.
  cbn [cwd set_olddir]. rewrite Hd. fold inside.
  pose proof (exec_frame resolve module_dir cm body inside Hbody) as Hframe.
  destruct (exec resolve module_dir body inside) as [st2 r]. cbn [fst snd] in *.
  unfold __exit__. rewrite Hframe. unfold inside. cbn [objects set_cwd set_olddir].
  rewrite Nat.eqb_refl. cbn [olddir]. unfold chdir. rewrite Hres. reflexivity.
Qed.

End CDContxtMoreFacts.

(** X5: a program that changes directory only inside [CDContxt] blocks,
    none of which enters its own instance again, ends in the working
    directory it started in, however many blocks it runs one after the
    other, on the same instance or on different ones, and whether or not
    one of them raises; provided the starting directory can be entered. *)
Theorem CDContxt_scoped_program_keeps_cwd
    (resolve : string -> string -> result string) (module_dir : string)
    (s : CDContxt.stmt) (st : CDContxt.process) :
  CDContxtMore.scoped s = true ->
  (forall d, resolve d (CDContxt.cwd st) = Ok (CDContxt.cwd st)) ->
  CDContxt.cwd (fst (CDContxt.exec resolve module_dir s st)) = CDContxt.cwd st.
Proof. apply scoped_keeps_cwd. Qed.

Lemma CDContxt_scoped_program_keeps_cwd_witness :
  let st := {| CDContxt.cwd := "/home";
               CDContxt.objects := fun _ =>
                 {| CDContxt.path := "/tmp"; CDContxt.olddir := None |} |} in
  let s := CDContxt.Seq (CDContxt.With 0 (CDContxt.Chdir "/var"))
             (CDContxt.Seq (CDContxt.With 0 (CDContxt.With 1 CDContxt.Pass))
                           (CDContxt.With 0 (CDContxt.RaiseExn (ValueError "stop")))) in
  CDContxt.cwd (fst (CDContxt.exec (fun _ p => Ok p) "/pkg" s st)) = "/home"%string.
Proof.
  intros st s.
  apply (CDContxt_scoped_program_keeps_cwd (fun _ p => Ok p) "/pkg" s st).
  - reflexivity.
  - intros d. reflexivity.
Defined.

(** X6: when [os.chdir] fails on the directory to enter (the path
    given, or the directory of functions.py when none was given), the
    with-block raises the exception of [os.chdir], whatever its kind,
    without running its body: the result is the same for every body, the
    working directory and all other instances are as before, and only
    [olddir] of the instance has been set. *)
Theorem CDContxt_enter_failure_skips_body
    (resolve : string -> string -> result string) (module_dir : string)
    (cm : nat) (body : CDContxt.stmt) (st : CDContxt.process) (e : exn) :
  resolve (CDContxt.cwd st)
          (CDContxtMore.target module_dir (CDContxt.objects st cm)) = Raise e ->
  let after := fst (CDContxt.exec resolve module_dir (CDContxt.With cm body) st) in
  CDContxt.exec resolve module_dir (CDContxt.With cm body) st =
    CDContxt.exec resolve module_dir (CDContxt.With cm CDContxt.Pass) st /\
  snd (CDContxt.exec resolve module_dir (CDContxt.With cm body) st) = Some e /\
  CDContxt.cwd after = CDContxt.cwd st /\
  CDContxt.olddir (CDContxt.objects after cm) = Some (CDContxt.cwd st) /\
  (forall other, other <> cm ->
     CDContxt.objects after other = CDContxt.objects st other).
Proof.
  intros H after. unfold after.
  rewrite !(with_enter_fails resolve module_dir cm _ st e H).
  repeat split.
  - cbn. rewrite Nat.eqb_refl. reflexivity.
  - intros other Hne. cbn. destruct (Nat.eqb_spec other cm); [contradiction | reflexivity].
Qed.

Lemma CDContxt_enter_failure_skips_body_witness :
  let resolve := fun (_ p : string) =>
                   if String.eqb p "/etc/passwd"
                   then Raise (NotADirectoryError p)
                   else if String.eqb p "/root"
                   then Raise (PermissionError p)
                   else Ok p in
  let st := {| CDContxt.cwd := "/home";
               CDContxt.objects := fun _ =>
                 {| CDContxt.path := "/etc/passwd"; CDContxt.olddir := None |} |} in
  let body := CDContxt.Chdir "/var" in
  let after := fst (CDContxt.exec resolve "/pkg" (CDContxt.With 0 body) st) in
  CDContxt.exec resolve "/pkg" (CDContxt.With 0 body) st =
    CDContxt.exec resolve "/pkg" (CDContxt.With 0 CDContxt.Pass) st /\
  snd (CDContxt.exec resolve "/pkg" (CDContxt.With 0 body) st) =
    Some (NotADirectoryError "/etc/passwd") /\
  CDContxt.cwd after = CDContxt.cwd st /\
  CDContxt.olddir (CDContxt.objects after 0) = Some (CDContxt.cwd st) /\
  (forall other, other <> 0%nat ->
     CDContxt.objects after other = CDContxt.objects st other).
Proof.
  intros resolve st body.
  apply (CDContxt_enter_failure_skips_body resolve "/pkg" 0 body st
           (NotADirectoryError "/etc/passwd")).
  reflexivity.
Defined.

(** X7: when the directory can be entered, the body runs with it as
    working directory (the path given, or the directory of functions.py
    for the empty path), and the block raises exactly what its body
    raises, after the working directory has been put back: [CDContxt]
    swallows no exception and adds none.  The body must not enter the
    same instance, and the starting directory must still be enterable. *)
Theorem CDContxt_body_runs_in_target
    (resolve : string -> string -> result string) (module_dir : string)
    (cm : nat) (body : CDContxt.stmt) (st : CDContxt.process) (d : string) :
  CDContxt.enters cm body = false ->
  (forall c, resolve c (CDContxt.cwd st) = Ok (CDContxt.cwd st)) ->
  resolve (CDContxt.cwd st)
          (CDContxtMore.target module_dir (CDContxt.objects st cm)) = Ok d ->
  exists inside,
    CDContxt.cwd inside = d /\
    snd (CDContxt.exec resolve module_dir (CDContxt.With cm body) st) =
      snd (CDContxt.exec resolve module_dir body inside) /\
    fst (CDContxt.exec resolve module_dir (CDContxt.With cm body) st) =
      CDContxt.set_cwd (CDContxt.cwd st)
        (fst (CDContxt.exec resolve module_dir body inside)).
Proof.
  intros Hbody Hres Hd.
  exists (CDContxt.set_cwd d (CDContxt.set_olddir cm (CDContxt.cwd st) st)).
  rewrite (with_enter_succeeds resolve module_dir cm body st d Hbody Hres Hd).
  repeat split.
Qed.

Lemma CDContxt_body_runs_in_target_witness :
  let st := {| CDContxt.cwd := "/home";
               CDContxt.objects := fun _ =>
                 {| CDContxt.path := ""; CDContxt.olddir := None |} |} in
  let body := CDContxt.RaiseExn (IndexError "boom") in
  exists inside,
    CDContxt.cwd inside = "/pkg"%string /\
    snd (CDContxt.exec (fun _ p => Ok p) "/pkg" (CDContxt.With 0 body) st) =
      snd (CDContxt.exec (fun _ p => Ok p) "/pkg" body inside) /\
    fst (CDContxt.exec (fun _ p => Ok p) "/pkg" (CDContxt.With 0 body) st) =
      CDContxt.set_cwd (CDContxt.cwd st)
        (fst (CDContxt.exec (fun _ p => Ok p) "/pkg" body inside)).
Proof.
  intros st body.
  apply (CDContxt_body_runs_in_target (fun _ p => Ok p) "/pkg" 0 body st "/pkg").
  - reflexivity.
  - intros c. reflexivity.
  - reflexivity.
Defined.

(** ** write_table as a whole *)

Section WriteTableCallFacts.

Variable to_csv : columns_arg -> bool -> option text -> text.
Variable df_columns : list text.





Lemma delete_quotes_keeps (P : ascii -> bool) (s : text) :
  forallb P s = true -> forallb P (Formatter.delete_quotes s) = true.
Proof.
  unfold Formatter.delete_quotes, str_replace.
  induction s as [|c s IH]; [reflexivity|].
  cbn [forallb flat_map]. intros H. apply andb_prop in H. destruct H as [Hc Hs].
  destruct (Ascii.eqb c dquote); [exact (IH Hs)|].
  cbn [app forallb]. rewrite Hc. exact (IH Hs).
Qed.

(** On text without slash and opening parenthesis, the [uarray] branch
    of either file only deletes the double quotes. *)
Lemma uarray_branch_inert (sym : text) (s : text) :
  Formatter.sym_ok sym = true ->
  forallb inert_char s = true ->
  Formatter.uarray_branch sym s = Formatter.delete_quotes s.
Proof.
  intros Hsym Hs. pose proof (delete_quotes_keeps inert_char s Hs) as Ht.
  unfold Formatter.uarray_branch, Formatter.replace_plus_minus.
  rewrite sub_without_occurrence.
  - pose proof (delete_skips sym [] (Formatter.delete_quotes s)) as Hskip.
    rewrite app_nil_r in Hskip. rewrite Hskip; [apply app_nil_r|].
    apply (forallb_weaken inert_char); [|exact Ht].
    unfold inert_char. intros c Hc. apply andb_prop in Hc. apply Hc.
  - apply no_slash_no_plus_minus.
    apply (forallb_weaken inert_char); [|exact Ht].
    unfold inert_char. intros c Hc. apply andb_prop in Hc. apply Hc.
Qed.

Lemma sisetup_str_same (sisetup : list text) :
  (if nonempty sisetup then Formatter.join (txt ", ") sisetup else []) =
  Formatter.join (txt ", ") sisetup.
Proof. destruct sisetup; reflexivity. Qed.

End WriteTableCallFacts.



(** X9: the two files write the same document, and leave the same lists
    behind, whenever [columns] is not [True] and either [uarray] is off
    or the serialised table has neither a slash nor an opening
    parenthesis; functions.py returns what it has written, write_table.py
    returns nothing. *)
Theorem write_table_files_agree
    (to_csv : columns_arg -> bool -> option text -> text)
    (df_columns : list text) (default : list text)
    (environ colspec : text) (inner_settings : inner_arg)
    (columns : columns_arg) (index : bool) (format_spec : option text)
    (uarray : bool) (sisetup : list text) :
  columns <> ColFlag true ->
  (uarray = false \/
   forall header, forallb inert_char (to_csv header index format_spec) = true) ->
  let tex := write_table_tex to_csv default environ colspec inner_settings
               columns index format_spec uarray sisetup in
  let plain := write_table_plain to_csv df_columns default environ colspec
                 inner_settings columns index format_spec uarray sisetup in
  file tex = file plain /\
  returned plain = Some (file plain) /\ returned tex = None /\
  default_inner tex = default_inner plain /\
  passed_inner tex = passed_inner plain.
Proof.
  intros Hcol Hbody tex plain. unfold tex, plain, write_table_tex, write_table_plain.
  cbn [file returned default_inner passed_inner].
  rewrite sisetup_str_same.
  assert (Hhead :
    match (match columns with ColFlag true => ColNames df_columns | c => c end) with
    | ColNames l => ColNames (map braces3 l)
    | ColFlag b => ColFlag b
    end =
    match columns with
    | ColNames l => ColNames (map braces3 l)
    | ColFlag b => ColFlag b
    end).
  { destruct columns as [[|]|l]; [contradiction Hcol | |]; reflexivity. }
  rewrite Hhead.
  assert (Hb : forall s,
    s = to_csv (match columns with
                | ColNames l => ColNames (map braces3 l)
                | ColFlag b => ColFlag b
                end) index format_spec ->
    WriteTable.table_body uarray s = Functions.table_body uarray s).
  { intros s Hs. unfold WriteTable.table_body, Functions.table_body.
    destruct Hbody as [-> | Hin]; [reflexivity|].
    destruct uarray; [|reflexivity].
    rewrite write_table_uarray_branch, functions_uarray_branch.
    rewrite !uarray_branch_inert; try reflexivity; rewrite Hs; apply Hin. }
  rewrite (Hb _ eq_refl). repeat split.
Qed.

Lemma write_table_files_agree_witness :
  let to_csv := fun (_ : columns_arg) (_ : bool) (_ : option text) =>
                  txt "1.5&-2e+03\\" in
  let tex := write_table_tex to_csv [] (txt "tblr") (txt "cc") DefaultList
               (ColNames [txt "a"; txt "b"]) false None true [txt "x"] in
  let plain := write_table_plain to_csv [] [] (txt "tblr") (txt "cc") DefaultList
                 (ColNames [txt "a"; txt "b"]) false None true [txt "x"] in
  file tex = file plain /\
  returned plain = Some (file plain) /\ returned tex = None /\
  default_inner tex = default_inner plain /\
  passed_inner tex = passed_inner plain.
Proof.
  intros to_csv.
  apply (write_table_files_agree to_csv [] [] (txt "tblr") (txt "cc") DefaultList
           (ColNames [txt "a"; txt "b"]) false None true [txt "x"]).
  - discriminate.
  - right. intros header. reflexivity.
Defined.

(** ** [_plot] and [AbstractFit.plot] *)

Section PlotFacts.

Import Plot.

Variable plt : string -> attribute.

Lemma get_app (key : string) (d1 d2 : kwargs) :
  get key (d1 ++ d2) =
  match get key d1 with
  | Some v => Some v
  | None => get key d2
  end.
Proof.
  induction d1 as [|[k v] d1 IH]; cbn [get app]; [reflexivity|].
  destruct (String.eqb k key); [reflexivity|exact IH].
Qed.

Lemma set_present (key : string) (v : value) (d : kwargs) :
  get key d = Some v -> set key v d = d.
Proof.
  induction d as [|[k v'] d IH]; cbn [get set]; [discriminate|].
  destruct (String.eqb k key); intros H.
  - injection H as ->. reflexivity.
  - rewrite (IH H). reflexivity.
Qed.

Lemma set_absent (key : string) (v : value) (d : kwargs) :
  get key d = None -> set key v d = d ++ [(key, v)].
Proof.
  induction d as [|[k v'] d IH]; cbn [get set app]; [reflexivity|].
  destruct (String.eqb k key); intros H; [discriminate|].
  rewrite (IH H). reflexivity.
Qed.

Lemma default_step (key : string) (d : kwargs) :
  set key (match get key d with Some v => v | None => VBool true end) d =
  d ++ missing_key key d.
Proof.
  unfold missing_key. destruct (get key d) as [v|] eqn:H.
  - rewrite app_nil_r. apply set_present. exact H.
  - apply set_absent. exact H.
Qed.

Lemma missing_key_app (key other : string) (d : kwargs) :
  String.eqb other key = false ->
  missing_key key (d ++ missing_key other d) = missing_key key d.
Proof.
  intros H. unfold missing_key at 1 3. rewrite get_app.
  destruct (get key d); [reflexivity|].
  unfold missing_key. destruct (get other d); cbn [get]; [reflexivity|].
  rewrite H. reflexivity.
Qed.

Lemma with_defaults_missing (d : kwargs) :
  with_defaults d = d ++ missing d.
Proof.
  unfold with_defaults, missing. cbn [fold_left].
  rewrite !default_step.
  rewrite (missing_key_app "grid" "legend" d) by reflexivity.
  set (d1 := d ++ missing_key "legend" d).
  set (d2 := d1 ++ missing_key "grid" d).
  assert (H : missing_key "show" d2 = missing_key "show" d).
  { unfold d2. unfold missing_key at 1 3. rewrite get_app.
    unfold d1. rewrite get_app.
    destruct (get "show" d); [reflexivity|].
    unfold missing_key.
    destruct (get "legend" d); destruct (get "grid" d); reflexivity. }
  rewrite H. unfold d2, d1. rewrite <- !app_assoc. reflexivity.
Qed.

Lemma missing_entries (k : string) (v : value) (d : kwargs) :
  In (k, v) (missing d) ->
  get k d = None /\ v = VBool true /\ is_default k = true.
Proof.
  unfold missing, missing_key. intros H.
  apply in_app_or in H. destruct H as [H|H].
  - destruct (get "legend" d) eqn:E; [destruct H|].
    destruct H as [H|[]]. injection H as <- <-. auto.
  - apply in_app_or in H. destruct H as [H|H].
    + destruct (get "grid" d) eqn:E; [destruct H|].
      destruct H as [H|[]]. injection H as <- <-. auto.
    + destruct (get "show" d) eqn:E; [destruct H|].
      destruct H as [H|[]]. injection H as <- <-. auto.
Qed.

Lemma get_show_with_defaults (d : kwargs) :
  exists v, get "show" (with_defaults d) = Some v /\ truthy v = show_flag d.
Proof.
  rewrite with_defaults_missing, get_app. unfold show_flag.
  destruct (get "show" d) as [v|] eqn:E.
  - exists v. auto.
  - exists (VBool true). split; [|reflexivity].
    unfold missing, missing_key. rewrite !get_app, E.
    destruct (get "legend" d); destruct (get "grid" d); reflexivity.
Qed.

Lemma get_in (k : string) (v : value) (d : kwargs) :
  get k d = Some v -> In (k, v) d.
Proof.
  induction d as [|[k' v'] d IH]; cbn [get]; [discriminate|].
  destruct (String.eqb k' k) eqn:E; intros H.
  - apply String.eqb_eq in E. injection H as ->. subst. left. reflexivity.
  - right. exact (IH H).
Qed.

Lemma get_none_not_in (k : string) (v : value) (d : kwargs) :
  get k d = None -> ~ In (k, v) d.
Proof.
  induction d as [|[k' v'] d IH]; cbn [get]; [intros _ []|].
  destruct (String.eqb k' k) eqn:E; [discriminate|].
  intros H [Hin|Hin].
  - injection Hin as -> _. rewrite String.eqb_refl in E. discriminate.
  - exact (IH H Hin).
Qed.

Lemma in_get_unique (k : string) (v : value) (d : kwargs) :
  NoDup (map fst d) -> In (k, v) d -> get k d = Some v.
Proof.
  induction d as [|[k' v'] d IH]; cbn [get map fst]; [intros _ []|].
  intros Hnd [Hin|Hin].
  - injection Hin as -> ->. rewrite String.eqb_refl. reflexivity.
  - inversion Hnd as [|? ? Hnot Hnd']. subst.
    destruct (String.eqb k' k) eqn:E.
    + apply String.eqb_eq in E. subst. exfalso. apply Hnot.
      change k with (fst (k, v)). apply in_map. exact Hin.
    + exact (IH Hnd' Hin).
Qed.

(** *** The loop *)

Lemma loop_app (d1 d2 : kwargs) :
  loop plt (d1 ++ d2) =
  match loop plt d1 with
  | (calls, None) => (calls ++ fst (loop plt d2), snd (loop plt d2))
  | (calls, Some e) => (calls, Some e)
  end.
Proof.
  induction d1 as [|[k v] d1 IH]; cbn [loop app].
  - destruct (loop plt d2). reflexivity.
  - destruct (String.eqb k "show"); [exact IH|].
    destruct (action v) as [arg|]; [|exact IH].
    destruct (plt k); try reflexivity.
    rewrite IH. destruct (loop plt d1) as [calls [e|]]; reflexivity.
Qed.

Lemma loop_calls (d : kwargs) (c : call) :
  In c (fst (loop plt d)) ->
  exists v arg,
    c = Call (call_name c) arg /\ In (call_name c, v) d /\
    action v = Some arg /\ String.eqb (call_name c) "show" = false.
Proof.
  induction d as [|[k v] d IH]; cbn [loop]; [intros []|].
  destruct (String.eqb k "show") eqn:Eshow.
  - intros H. destruct (IH H) as (v' & arg & H1 & H2 & H3 & H4).
    exists v', arg. repeat split; auto. right. exact H2.
  - destruct (action v) as [arg|] eqn:Eact.
    + destruct (plt k); try (intros []).
      destruct (loop plt d) as [calls e]. cbn [fst] in *.
      intros [H|H].
      * subst c. cbn [call_name]. exists v, arg.
        repeat split; auto. left. reflexivity.
      * destruct (IH H) as (v' & arg' & H1 & H2 & H3 & H4).
        exists v', arg'. repeat split; auto. right. exact H2.
    + intros H. destruct (IH H) as (v' & arg & H1 & H2 & H3 & H4).
      exists v', arg. repeat split; auto. right. exact H2.
Qed.

Lemma loop_wanted (d : kwargs) :
  (forall k v arg, In (k, v) d -> String.eqb k "show" = false ->
                   action v = Some arg -> plt k = Callable) ->
  loop plt d = (wanted d, None).
Proof.
  induction d as [|[k v] d IH]; cbn [loop wanted]; [reflexivity|].
  intros H.
  assert (IH' : loop plt d = (wanted d, None)).
  { apply IH. intros k' v' arg Hin. apply H. right. exact Hin. }
  destruct (String.eqb k "show") eqn:Eshow; [exact IH'|].
  destruct (action v) as [arg|] eqn:Eact; [|exact IH'].
  rewrite (H k v arg (or_introl eq_refl) Eshow Eact), IH'. reflexivity.
Qed.

Lemma loop_matters (d : kwargs) :
  loop plt (filter matters d) = loop plt d.
Proof.
  induction d as [|[k v] d IH]; cbn [filter loop]; [reflexivity|].
  destruct (matters (k, v)) eqn:Em.
  - cbn [loop]. rewrite IH. reflexivity.
  - rewrite IH. unfold matters in Em. cbn [fst snd] in Em.
    destruct (action v) as [arg|]; [discriminate|].
    destruct (String.eqb k "show"); reflexivity.
Qed.

Lemma get_matters (key : string) (d : kwargs) :
  is_default key = true -> get key (filter matters d) = get key d.
Proof.
  intros Hkey. induction d as [|[k v] d IH]; cbn [filter get]; [reflexivity|].
  destruct (matters (k, v)) eqn:Em.
  - cbn [get]. rewrite IH. reflexivity.
  - rewrite IH. destruct (String.eqb k key) eqn:E; [|reflexivity].
    apply String.eqb_eq in E. subst k. unfold matters in Em.
    cbn [fst snd] in Em. rewrite Hkey in Em.
    destruct (action v); discriminate.
Qed.

Lemma missing_matters (d : kwargs) :
  missing (filter matters d) = missing d.
Proof.
  unfold missing, missing_key.
  rewrite !get_matters by reflexivity. reflexivity.
Qed.

Lemma filter_missing (d : kwargs) :
  filter matters (missing d) = missing d.
Proof.
  unfold missing, missing_key.
  destruct (get "legend" d); destruct (get "grid" d);
    destruct (get "show" d); reflexivity.
Qed.

Lemma with_defaults_matters (d : kwargs) :
  with_defaults (filter matters d) = filter matters (with_defaults d).
Proof.
  rewrite !with_defaults_missing, filter_app, missing_matters, filter_missing.
  reflexivity.
Qed.

Lemma plot_matters (d : kwargs) :
  _plot plt (filter matters d) = _plot plt d.
Proof.
  unfold _plot. rewrite with_defaults_matters, loop_matters.
  rewrite get_matters by reflexivity. reflexivity.
Qed.

Lemma plot_calls (d : kwargs) (c : call) :
  In c (fst (_plot plt d)) ->
  (c = Call "show" None /\ show_flag d = true /\ snd (_plot plt d) = None) \/
  (In c (fst (loop plt (with_defaults d)))).
Proof.
  unfold _plot.
  destruct (get_show_with_defaults d) as (v & Hget & Hflag).
  rewrite Hget, Hflag.
  destruct (loop plt (with_defaults d)) as [calls [e|]]; cbn [fst snd].
  - right. assumption.
  - destruct (show_flag d); cbn [fst snd]; [|right; assumption].
    intros H. apply in_app_or in H. destruct H as [H|[H|[]]].
    + right. exact H.
    + left. auto.
Qed.

End PlotFacts.

Section PlotProperties.

Import Plot.

Variable plt : string -> attribute.

(** X10. Whatever the keyword arguments are, a call of pyplot's [show]
    made by [_plot] is the last call made, it is made without argument, at
    most once, only when no exception was raised and the [show] flag
    (default [True]) is truthy; and when no exception is raised and the
    flag is truthy, the call is made. *)
Theorem plot_show_called_last (d : kwargs) :
  (forall i c,
      nth_error (fst (_plot plt d)) i = Some c ->
      call_name c = "show"%string ->
      c = Call "show" None /\ S i = List.length (fst (_plot plt d)) /\
      snd (_plot plt d) = None /\ show_flag d = true) /\
  (snd (_plot plt d) = None -> show_flag d = true ->
   exists calls, fst (_plot plt d) = calls ++ [Call "show" None]).
Proof.
  unfold _plot.
  destruct (get_show_with_defaults d) as (v & Hget & Hflag).
  rewrite Hget, Hflag.
  assert (Hloop : forall c, In c (fst (loop plt (with_defaults d))) ->
                            call_name c <> "show"%string).
  { intros c Hin Hname.
    destruct (loop_calls plt _ c Hin) as (v' & arg & _ & _ & _ & Hs).
    rewrite Hname in Hs. discriminate. }
  destruct (loop plt (with_defaults d)) as [calls [e|]]; cbn [fst snd] in *.
  - split; [|discriminate].
    intros i c Hnth Hname. exfalso.
    exact (Hloop c (nth_error_In _ _ Hnth) Hname).
  - destruct (show_flag d); cbn [fst snd].
    + split; [|intros _ _; exists calls; reflexivity].
      intros i c Hnth Hname.
      destruct (Nat.lt_ge_cases i (List.length calls)) as [Hlt|Hge].
      * rewrite nth_error_app1 in Hnth by exact Hlt. exfalso.
        exact (Hloop c (nth_error_In _ _ Hnth) Hname).
      * rewrite nth_error_app2 in Hnth by exact Hge.
        destruct (i - List.length calls) as [|j] eqn:Ej; cbn in Hnth.
        -- injection Hnth as <-. rewrite length_app. cbn [List.length].
           repeat split. lia.
        -- destruct j; discriminate.
    + split; [|discriminate].
      intros i c Hnth Hname. exfalso.
      exact (Hloop c (nth_error_In _ _ Hnth) Hname).
Qed.

(** X11. Called without [legend], [grid] and [show], [_plot] makes the
    calls of the caller's keyword arguments in the order they were written
    and then [legend()], [grid()] and [show()], in this order, provided
    pyplot has the names. *)
Theorem plot_defaults (d : kwargs)
    (Hlegend : get "legend" d = None)
    (Hgrid : get "grid" d = None)
    (Hshow : get "show" d = None)
    (Hplt_legend : plt "legend" = Callable)
    (Hplt_grid : plt "grid" = Callable)
    (Hplt : forall k v arg, In (k, v) d -> action v = Some arg ->
                            plt k = Callable) :
  _plot plt d =
  (wanted d ++ [Call "legend" None; Call "grid" None; Call "show" None],
   None).
Proof.
  unfold _plot. rewrite with_defaults_missing.
  assert (Hm : missing d = [("legend"%string, VBool true);
                            ("grid"%string, VBool true);
                            ("show"%string, VBool true)]).
  { unfold missing, missing_key. rewrite Hlegend, Hgrid, Hshow. reflexivity. }
  rewrite Hm, get_app, Hshow, loop_app.
  rewrite (loop_wanted plt d)
    by (intros k v arg Hin _ Hact; exact (Hplt k v arg Hin Hact)).
  cbn [loop get action String.eqb Ascii.eqb Bool.eqb fst snd truthy].
  rewrite Hplt_legend, Hplt_grid. cbn [fst snd app].
  rewrite <- app_assoc. reflexivity.
Qed.

(** X12. A keyword argument passed as [False] under a name other than
    [legend], [grid] and [show] has no effect at all: the calls made and
    the exception raised are those of the call without it, so that even
    a name pyplot does not have raises nothing. *)
Theorem plot_false_is_inert (d1 d2 : kwargs) (k : string)
    (Hk : is_default k = false) :
  _plot plt (d1 ++ (k, VBool false) :: d2) = _plot plt (d1 ++ d2).
Proof.
  rewrite <- (plot_matters plt (d1 ++ (k, VBool false) :: d2)).
  rewrite <- (plot_matters plt (d1 ++ d2)).
  rewrite !filter_app. cbn [filter].
  unfold matters at 2. cbn [fst snd action]. rewrite Hk. reflexivity.
Qed.

(** X13. A name passed as [False] is not called: when the keyword
    arguments (a dict, so with distinct names) hold [False] under a name,
    [_plot] makes no call of this name, whether the name is [legend],
    [grid], [show] or any other. *)
Theorem plot_false_suppresses (d : kwargs) (k : string)
    (Hdict : NoDup (map fst d))
    (Hfalse : get k d = Some (VBool false)) :
  Forall (fun c => call_name c <> k) (fst (_plot plt d)).
Proof.
  apply Forall_forall. intros c Hin Hname.
  destruct (plot_calls plt d c Hin) as [(Hc & Hflag & _)|Hl].
  - subst c. cbn [call_name] in Hname. subst k.
    unfold show_flag in Hflag. rewrite Hfalse in Hflag. discriminate.
  - destruct (loop_calls plt _ c Hl) as (v & arg & _ & Hentry & Hact & _).
    rewrite Hname, with_defaults_missing in Hentry.
    apply in_app_or in Hentry. destruct Hentry as [Hd|Hm].
    + rewrite (in_get_unique k v d Hdict Hd) in Hfalse.
      injection Hfalse as ->. discriminate.
    + destruct (missing_entries k v d Hm) as (Hnone & _).
      rewrite Hnone in Hfalse. discriminate.
Qed.

(** X14. [AbstractFit.plot] clears the figure, plots the two data sets
    and then calls pyplot's [title] exactly once: with the empty string
    when the caller gave a title, with the type of the fit when the caller
    gave none. A title given by the caller never reaches pyplot. *)
Theorem AbstractFit_plot_title (_type label_in label_out : string)
    (title : option string) (d : kwargs)
    (Hplt : plt "title" = Callable)
    (Hd : get "title" d = None) :
  exists rest,
    fst (plot plt _type label_in label_out title d) =
    [Call "clf" None; Call "plot" (Some (VStr label_in));
     Call "plot" (Some (VStr label_out));
     Call "title" (Some (VStr (match title with
                               | Some _ => ""%string
                               | None => _type
                               end)))] ++ rest /\
    forall c, In c rest -> call_name c <> "title"%string.
Proof.
  unfold plot.
  set (t := match title with Some _ => ""%string | None => _type end).
  set (d' := ("title"%string, VStr t) :: d).
  assert (Hloop : exists calls e,
             loop plt (with_defaults d') =
             (Call "title" (Some (VStr t)) :: calls, e) /\
             forall c, In c calls -> call_name c <> "title"%string).
  { rewrite with_defaults_missing. unfold d' at 1. cbn [app loop].
    cbn [String.eqb Ascii.eqb Bool.eqb action]. rewrite Hplt.
    pose proof (loop_calls plt (d ++ missing d')) as Hcalls.
    destruct (loop plt (d ++ missing d')) as [calls e].
    exists calls, e. split; [reflexivity|].
    intros c Hin Hname.
    destruct (Hcalls c Hin) as (v & arg & _ & Hentry & _ & _).
    rewrite Hname in Hentry. apply in_app_or in Hentry.
    destruct Hentry as [Hin_d|Hm].
    - exact (get_none_not_in _ _ _ Hd Hin_d).
    - destruct (missing_entries _ _ _ Hm) as (_ & _ & Hdef). discriminate. }
  destruct Hloop as (calls & e & Hloop & Hcalls).
  unfold _plot. rewrite Hloop.
  destruct (get_show_with_defaults d') as (v & Hget & _). rewrite Hget.
  destruct e as [e|]; cbn [fst].
  - exists calls. split; [reflexivity|exact Hcalls].
  - destruct (truthy v); cbn [fst].
    + exists (calls ++ [Call "show" None]). split; [reflexivity|].
      intros c Hin. apply in_app_or in Hin. destruct Hin as [Hin|[<-|[]]].
      * exact (Hcalls c Hin).
      * discriminate.
    + exists calls. split; [reflexivity|exact Hcalls].
Qed.

(** X15. A keyword argument whose name pyplot does not have, and whose
    value is not [False], makes [_plot] raise [KeyError] for this name
    after the calls of the arguments written before it: the arguments
    after it are not called, neither are the defaults they leave out,
    and [show] is not called. *)
Theorem plot_unknown_name_raises (d1 d2 : kwargs) (k : string) (v : value)
    (arg : option value)
    (Hbefore : forall k' v' arg', In (k', v') d1 ->
                 String.eqb k' "show" = false ->
                 action v' = Some arg' -> plt k' = Callable)
    (Hk : String.eqb k "show" = false)
    (Hv : action v = Some arg)
    (Hmissing : plt k = Missing) :
  _plot plt (d1 ++ (k, v) :: d2) = (wanted d1, Some (KeyError k)).
Proof.
  unfold _plot. rewrite with_defaults_missing, <- app_assoc, loop_app.
  rewrite (loop_wanted plt d1 Hbefore).
  cbn [app loop]. rewrite Hk, Hv, Hmissing. cbn [fst snd].
  rewrite app_nil_r. reflexivity.
Qed.

End PlotProperties.

Lemma plot_show_called_last_witness :
  Plot.Call "show" None = Plot.Call "show" None /\
  4 = List.length
        (fst (Plot._plot pyplot [("xlabel"%string, Plot.VStr "t")])) /\
  snd (Plot._plot pyplot [("xlabel"%string, Plot.VStr "t")]) = None /\
  Plot.show_flag [("xlabel"%string, Plot.VStr "t")] = true.
Proof.
  apply (proj1 (plot_show_called_last pyplot
                  [("xlabel"%string, Plot.VStr "t")]) 3
               (Plot.Call "show" None)); reflexivity.
Defined.

Lemma plot_defaults_witness :
  Plot._plot pyplot [("xlabel"%string, Plot.VStr "t");
                     ("unknown"%string, Plot.VBool false)] =
  ([Plot.Call "xlabel" (Some (Plot.VStr "t")); Plot.Call "legend" None;
    Plot.Call "grid" None; Plot.Call "show" None], None).
Proof.
  apply (plot_defaults pyplot [("xlabel"%string, Plot.VStr "t");
                               ("unknown"%string, Plot.VBool false)]);
    try reflexivity.
  intros k v arg [H|[H|[]]] Hact; injection H as <- <-;
    [reflexivity|discriminate].
Defined.

Lemma plot_false_is_inert_witness :
  Plot._plot pyplot [("xlabel"%string, Plot.VStr "t");
                     ("unknown"%string, Plot.VBool false);
                     ("grid"%string, Plot.VBool false)] =
  Plot._plot pyplot [("xlabel"%string, Plot.VStr "t");
                     ("grid"%string, Plot.VBool false)].
Proof.
  apply (plot_false_is_inert pyplot [("xlabel"%string, Plot.VStr "t")]
           [("grid"%string, Plot.VBool false)] "unknown").
  reflexivity.
Defined.

Lemma plot_false_suppresses_witness :
  Forall (fun c => Plot.call_name c <> "grid"%string)
    (fst (Plot._plot pyplot [("grid"%string, Plot.VBool false);
                             ("xlabel"%string, Plot.VStr "t")])).
Proof.
  apply (plot_false_suppresses pyplot
           [("grid"%string, Plot.VBool false);
            ("xlabel"%string, Plot.VStr "t")] "grid").
  - cbn [map fst]. repeat constructor; cbn [In]; intros H;
      repeat (destruct H as [H|H]; [discriminate|]); exact H.
  - reflexivity.
Defined.

Lemma AbstractFit_plot_title_witness :
  exists rest,
    fst (Plot.plot pyplot "Curve fit" "Data in" "Data out"
           (Some "Pendulum"%string) [("show"%string, Plot.VBool false)]) =
    [Plot.Call "clf" None; Plot.Call "plot" (Some (Plot.VStr "Data in"));
     Plot.Call "plot" (Some (Plot.VStr "Data out"));
     Plot.Call "title" (Some (Plot.VStr ""))] ++ rest /\
    forall c, In c rest -> Plot.call_name c <> "title"%string.
Proof.
  apply (AbstractFit_plot_title pyplot "Curve fit" "Data in" "Data out"
           (Some "Pendulum"%string) [("show"%string, Plot.VBool false)]);
    reflexivity.
Defined.

Lemma plot_unknown_name_raises_witness :
  Plot._plot pyplot [("xlabel"%string, Plot.VStr "t");
                     ("xlable"%string, Plot.VStr "t");
                     ("ylabel"%string, Plot.VStr "x")] =
  ([Plot.Call "xlabel" (Some (Plot.VStr "t"))],
   Some (Plot.KeyError "xlable")).
Proof.
  apply (plot_unknown_name_raises pyplot
           [("xlabel"%string, Plot.VStr "t")]
           [("ylabel"%string, Plot.VStr "x")] "xlable" (Plot.VStr "t")
           (Some (Plot.VStr "t"))); try reflexivity.
  intros k v arg [H|[]] _ _. injection H as <- <-. reflexivity.
Defined.

(** ** The [uarray] branch: what it never leaves behind *)

(** X22. In both files the text that leaves the [uarray] branch holds no
    double quote, whatever [to_csv] returned: the quotes are deleted first
    and neither substitution puts one back. *)
Theorem uarray_branch_never_quotes (v : variant) (s : text) :
  forallb (fun c => negb (Ascii.eqb c dquote)) (uarray_branch v s) = true.
Proof.
  destruct v; cbn [uarray_branch].
  - rewrite write_table_uarray_branch.
    exact (uarray_branch_no_quote Formatter.tex eq_refl s).
  - rewrite functions_uarray_branch.
    exact (uarray_branch_no_quote Formatter.plain eq_refl s).
Qed.

(** X23. In both files the substitution that deletes the parentheses is
    idempotent on every text: a second run finds nothing left to replace,
    since a replacement never completes a new parenthesised pair with
    the text around it. *)
Theorem delete_parentheses_twice (v : variant) (s : text) :
  delete_parentheses v (delete_parentheses v s) = delete_parentheses v s.
Proof.
  destruct v; cbn [delete_parentheses].
  - rewrite write_table_delete_parentheses.
    exact (delete_parentheses_idempotent Formatter.tex eq_refl
             (List.length s) s (le_n _)).
  - rewrite functions_delete_parentheses.
    exact (delete_parentheses_idempotent Formatter.plain eq_refl
             (List.length s) s (le_n _)).
Qed.
